(** * The scene-tree store of the viser client

    A shallow embedding of [src/viser/client/src/SceneTree.tsx]: the
    [SceneNode] class, the [SceneTreeState] record of four JavaScript
    objects used as string-keyed maps, and the seven actions of the
    zustand store built by [useSceneTreeState].

    Conventions of the embedding.
    - A JavaScript object used as a dictionary is a [gmap string _]; the
      test [k in o] is the own-key test on that map.  Keys are scene
      paths (the empty root path, or a path starting with a slash), none
      of which is the name of a property inherited from the prototype of
      a plain object.
    - Every action is [set recipe]: the zustand [immer] middleware runs
      the recipe on a draft of the store and commits the draft only when
      the recipe returns.  A recipe is thus a function from the draft to
      [option] of the mutated draft, [None] standing for the [TypeError]
      that reading a property of [undefined] raises.
    - [THREE.Matrix4], [THREE.Object3D] and [MakeObject] are opaque to
      the store; they are type parameters.
    - [console.log] does not touch the store and is left out. *)

From Stdlib Require Import Ascii.
From stdpp Require Import gmap strings list fin_maps.

Set Default Proof Using "Type".

(** ** Strings: the pieces of the JavaScript string API the store uses *)

Definition slash : ascii := "/"%char.

(** [s.split("/")]: the segments between slashes, never the empty list. *)
Fixpoint split (s : string) : list string :=
  match s with
  | EmptyString => [EmptyString]
  | String c rest =>
      if decide (c = slash) then EmptyString :: split rest
      else match split rest with
           | seg :: segs => String c seg :: segs
           | [] => [String c EmptyString]
           end
  end.

(** [l.slice(0, -1)]: everything but the last element. *)
Definition slice_0_m1 {A : Type} (l : list A) : list A :=
  take (length l - 1) l.

(** [l.join("/")]. *)
Fixpoint join (l : list string) : string :=
  match l with
  | [] => EmptyString
  | [seg] => seg
  | seg :: segs => seg +:+ String slash (join segs)
  end.

(** [n.startsWith(name)]. *)
Fixpoint startsWith (n name : string) : bool :=
  match name with
  | EmptyString => true
  | String c name' =>
      match n with
      | EmptyString => false
      | String d n' => if decide (d = c) then startsWith n' name' else false
      end
  end.

(** [name.split("/").slice(0, -1).join("/")], as both structural actions
    compute it. *)
Definition parent_name (name : string) : string :=
  join (slice_0_m1 (split name)).

(** ** The data model *)

Section SceneTree.

Context {Matrix4 Object3D MakeObject : Type}.

(** [class SceneNode]: a name, the ordered child names, the factory. *)
Record SceneNode : Type := mkSceneNode {
  name : string;
  children : list string;
  make_object : MakeObject;
}.

(** [new SceneNode(name, make_object)]: the constructor starts the child
    list empty. *)
Definition new_SceneNode (n : string) (mk : MakeObject) : SceneNode :=
  {| name := n; children := []; make_object := mk |}.

(** [interface SceneTreeState]. *)
Record SceneTreeState : Type := mkSceneTreeState {
  nodeFromName : gmap string SceneNode;
  visibilityFromName : gmap string bool;
  matrixFromName : gmap string Matrix4;
  objFromName : gmap string Object3D;
}.

(** The four field assignments a recipe performs on its draft. *)
Definition with_nodes (m : gmap string SceneNode) (state : SceneTreeState)
  : SceneTreeState :=
  {| nodeFromName := m;
     visibilityFromName := visibilityFromName state;
     matrixFromName := matrixFromName state;
     objFromName := objFromName state |}.

Definition with_visibility (m : gmap string bool) (state : SceneTreeState)
  : SceneTreeState :=
  {| nodeFromName := nodeFromName state;
     visibilityFromName := m;
     matrixFromName := matrixFromName state;
     objFromName := objFromName state |}.

Definition with_matrix (m : gmap string Matrix4) (state : SceneTreeState)
  : SceneTreeState :=
  {| nodeFromName := nodeFromName state;
     visibilityFromName := visibilityFromName state;
     matrixFromName := m;
     objFromName := objFromName state |}.

Definition with_obj (m : gmap string Object3D) (state : SceneTreeState)
  : SceneTreeState :=
  {| nodeFromName := nodeFromName state;
     visibilityFromName := visibilityFromName state;
     matrixFromName := matrixFromName state;
     objFromName := m |}.

(** [k in o] for an object used as a dictionary. *)
Definition has_key {V : Type} (k : string) (o : gmap string V) : bool :=
  bool_decide (is_Some (o !! k)).

(** [Object.keys(o)]. *)
Definition keys {V : Type} (o : gmap string V) : list string :=
  (map_to_list o).*1.

(** ** The default state *)

Variables rootFrameTemplate rootAxesTemplate : MakeObject.

(** [rootNodeTemplate], after [rootNodeTemplate.children.push("/WorldAxes")]. *)
Definition rootNodeTemplate : SceneNode :=
  {| name := "";
     children := children (new_SceneNode "" rootFrameTemplate) ++ ["/WorldAxes"];
     make_object := rootFrameTemplate |}.

Definition rootAxesNode : SceneNode :=
  new_SceneNode "/WorldAxes" rootAxesTemplate.

Definition cleanSceneTreeState : SceneTreeState :=
  {| nodeFromName := <["" := rootNodeTemplate]> (<["/WorldAxes" := rootAxesNode]> ∅);
     visibilityFromName := <["" := true]> (<["/WorldAxes" := true]> ∅);
     matrixFromName := ∅;
     objFromName := ∅ |}.

(** ** The store *)

(** How a call of an action ends. *)
Inductive completion : Type :=
  | Returned
  | Thrown.

(** A recipe mutates the draft it is given and returns nothing; [None] is
    a [TypeError] raised part-way. *)
Definition recipe : Type := SceneTreeState → option SceneTreeState.

(** [set(recipe)] of the [immer] middleware: the store becomes the draft
    when the recipe returns; when it throws, the draft is dropped, the
    store keeps its value and the exception reaches the caller. *)
Definition set (r : recipe) (store : SceneTreeState)
  : completion * SceneTreeState :=
  match r store with
  | Some draft => (Returned, draft)
  | None => (Thrown, store)
  end.

Definition setObj_recipe (n : string) (obj : Object3D) : recipe :=
  λ state, Some (with_obj (<[n := obj]> (objFromName state)) state).

Definition setVisibility_recipe (n : string) (visible : bool) : recipe :=
  λ state,
    Some (with_visibility (<[n := visible]> (visibilityFromName state)) state).

Definition setMatrix_recipe (n : string) (matrix : Matrix4) : recipe :=
  λ state, Some (with_matrix (<[n := matrix]> (matrixFromName state)) state).

Definition clearObj_recipe (n : string) : recipe :=
  λ state, Some (with_obj (delete n (objFromName state)) state).

(** [o[k].children.push(x)]: [None] when [o[k]] is [undefined]. *)
Definition push_child (k x : string) (o : gmap string SceneNode)
  : option (gmap string SceneNode) :=
  node ← o !! k;
  Some (<[k := {| name := name node;
                  children := children node ++ [x];
                  make_object := make_object node |}]> o).

Definition addSceneNode_recipe (node : SceneNode) : recipe :=
  λ state,
    if has_key (name node) (nodeFromName state) then
      (* { ...node, children: state.nodeFromName[node.name].children } *)
      old ← nodeFromName state !! name node;
      Some (with_nodes
              (<[name node := {| name := name node;
                                 children := children old;
                                 make_object := make_object node |}]>
                 (nodeFromName state))
              state)
    else
      let parent_name := parent_name (name node) in
      let state := with_nodes (<[name node := node]> (nodeFromName state)) state in
      nodes ← push_child parent_name (name node) (nodeFromName state);
      let state := with_nodes nodes state in
      if negb (has_key (name node) (visibilityFromName state)) then
        Some (with_visibility (<[name node := true]> (visibilityFromName state))
                state)
      else Some state.

(** [o[k].children = o[k].children.filter((child_name) => child_name !== x)]. *)
Definition filter_children (k x : string) (o : gmap string SceneNode)
  : option (gmap string SceneNode) :=
  node ← o !! k;
  Some (<[k := {| name := name node;
                  children := filter (λ child_name, child_name ≠ x) (children node);
                  make_object := make_object node |}]> o).

Definition removeSceneNode_recipe (n : string) : recipe :=
  λ state,
    if negb (has_key n (nodeFromName state)) then
      (* console.log("Skipping scene node removal for " + name); return; *)
      Some state
    else
      let parent_name := parent_name n in
      nodes ← filter_children parent_name n (nodeFromName state);
      let state := with_nodes nodes state in
      let state := with_visibility (delete n (visibilityFromName state)) state in
      let state := with_matrix (delete n (matrixFromName state)) state in
      let remove_names := filter (λ k, startsWith k n = true) (keys (nodeFromName state)) in
      Some (with_nodes
              (foldl (λ o remove_name, delete remove_name o)
                 (nodeFromName state) remove_names)
              state).

(** [{ ...a, ...b }] on two states: every field of [b] wins. *)
Definition spread (a b : SceneTreeState) : SceneTreeState :=
  {| nodeFromName := nodeFromName b;
     visibilityFromName := visibilityFromName b;
     matrixFromName := matrixFromName b;
     objFromName := objFromName b |}.

(** [state = { ...state, ...cleanSceneTreeState }] rebinds the recipe's
    parameter; the draft the store handed in is not written to, and the
    recipe returns nothing. *)
Definition resetScene_recipe : recipe :=
  λ draft,
    let state := draft in
    let state := spread state cleanSceneTreeState in
    Some draft.

Definition setObj n obj := set (setObj_recipe n obj).
Definition setVisibility n visible := set (setVisibility_recipe n visible).
Definition setMatrix n matrix := set (setMatrix_recipe n matrix).
Definition clearObj n := set (clearObj_recipe n).
Definition addSceneNode node := set (addSceneNode_recipe node).
Definition removeSceneNode n := set (removeSceneNode_recipe n).
Definition resetScene := set resetScene_recipe.

End SceneTree.

Arguments SceneNode : clear implicits.
Arguments SceneTreeState : clear implicits.

(** ** Sequences of calls *)

Section Calls.

Context {Matrix4 Object3D MakeObject : Type}.
Variables rootFrameTemplate rootAxesTemplate : MakeObject.

Abbreviation State := (SceneTreeState Matrix4 Object3D MakeObject).

(** The calls an external controller or the projector can issue. *)
Inductive mutation : Type :=
  | AddNode (n : string) (mk : MakeObject)
  | RemoveNode (n : string)
  | SetVisibility (n : string) (visible : bool)
  | SetTransform (n : string) (matrix : Matrix4)
  | SetObj (n : string) (obj : Object3D)
  | ClearObj (n : string)
  | Reset.

Definition call (m : mutation) (store : State) : completion * State :=
  match m with
  | AddNode n mk => addSceneNode (new_SceneNode n mk) store
  | RemoveNode n => removeSceneNode n store
  | SetVisibility n visible => setVisibility n visible store
  | SetTransform n matrix => setMatrix n matrix store
  | SetObj n obj => setObj n obj store
  | ClearObj n => clearObj n store
  | Reset => resetScene rootFrameTemplate rootAxesTemplate store
  end.

(** The store after a sequence of calls, a throwing call leaving it as it
    was. *)
Definition calls (ms : list mutation) (store : State) : State :=
  foldl (λ st m, (call m st).2) store ms.

(** Root-to-leaf order: at each [AddNode] the parent path is a key of the
    registry. *)
Fixpoint root_to_leaf (adds : list (string * MakeObject)) (store : State)
  : bool :=
  match adds with
  | [] => true
  | (n, mk) :: rest =>
      has_key (parent_name n) (nodeFromName store)
      && root_to_leaf rest (call (AddNode n mk) store).2
  end.

Definition add_all (adds : list (string * MakeObject)) (store : State) : State :=
  calls (map (λ a, AddNode a.1 a.2) adds) store.

End Calls.

(** ** Child lists of a registry *)

Section Placement.

Context {MakeObject : Type}.

(** How often [p] occurs in one child list. *)
Definition count (p : string) (l : list string) : nat :=
  length (filter (λ child_name, child_name = p) l).

(** How often [p] occurs in all child lists of the registry together. *)
Definition occurrences (p : string) (o : gmap string (SceneNode MakeObject))
  : nat :=
  sum_list_with (λ kv, count p (children kv.2)) (map_to_list o).

(** [p] occurs once in all, and the one list holding it belongs to the
    node at [parent_name p]. *)
Definition in_one_parent (p : string) (o : gmap string (SceneNode MakeObject))
  : Prop :=
  occurrences p o = 1
  ∧ (∃ parent, o !! parent_name p = Some parent ∧ count p (children parent) = 1)
  ∧ (∀ q node, o !! q = Some node → p ∈ children node → q = parent_name p).

(** The registry invariant that additions keep: the root entry is there,
    the parent of every key is a key, and a child list holds [k] once
    when it is the list of the parent of a non-root key [k], never
    otherwise. *)
Definition well_placed (o : gmap string (SceneNode MakeObject)) : Prop :=
  is_Some (o !! "")
  ∧ (∀ k, is_Some (o !! k) → is_Some (o !! parent_name k))
  ∧ (∀ q node k, o !! q = Some node →
       count k (children node)
       = if decide (is_Some (o !! k) ∧ k ≠ "" ∧ q = parent_name k)
         then 1 else 0).

(** The registry of any store the calls can reach holds the root entry
    or nothing at all. *)
Definition rooted_or_empty (o : gmap string (SceneNode MakeObject)) : Prop :=
  is_Some (o !! "") ∨ o = ∅.

End Placement.

(** ** Predicates used in the statements about paths and reachable stores *)

(** Whether a slash occurs in [s]. *)
Fixpoint has_slash (s : string) : bool :=
  match s with
  | EmptyString => false
  | String c rest => if decide (c = slash) then true else has_slash rest
  end.

Section Invariants.

Context {Matrix4 Object3D MakeObject : Type}.

(** No call of the sequence is a removal. *)
Definition no_removal (ms : list (@mutation Matrix4 Object3D MakeObject))
  : bool :=
  forallb (λ m, match m with RemoveNode _ => false | _ => true end) ms.

(** What every call keeps of a store: an entry sits under its own name,
    the parent path of a key is a key, and a key of the registry is a key
    of the visibility overlay. *)
Definition store_inv (s : SceneTreeState Matrix4 Object3D MakeObject) : Prop :=
  (∀ k node, nodeFromName s !! k = Some node → name node = k)
  ∧ (∀ k, is_Some (nodeFromName s !! k) →
          is_Some (nodeFromName s !! parent_name k))
  ∧ (∀ k, is_Some (nodeFromName s !! k) →
          is_Some (visibilityFromName s !! k)).

(** The child lists hold no name twice, and only keys of the registry,
    each in the list of the entry at its parent path. *)
Definition children_sound (o : gmap string (SceneNode MakeObject)) : Prop :=
  ∀ q node, o !! q = Some node →
    NoDup (children node)
    ∧ ∀ k, k ∈ children node →
           is_Some (o !! k) ∧ k ≠ "" ∧ parent_name k = q.

End Invariants.

(** ** The projector components

    A component is a function of its props and of the store that the
    [useSceneTree] hook reads: [props.useSceneTree(selector)] is the
    selector applied to the store.  [None] is the [TypeError] of reading
    a property of [undefined].  What a component returns is kept as data;
    its effects ([setObj] after a render, [clearObj] on clean-up) are not
    part of the returned value. *)

Section Projector.

Context {Matrix4 Object3D MakeObject : Type}.

(** [<SceneNodeThreeObject key={...} name={...} useSceneTree={...} />]. *)
Record ThreeObjectElement : Type := mkThreeObjectElement {
  element_key : string;
  element_name : string;
}.

(** What [SceneNodeThreeChildren] returns: the falsy [parentObj] itself,
    or the portal of a group of child elements into [parentObj]. *)
Inductive ChildrenResult : Type :=
  | NoParentObj
  | Portal (group : list ThreeObjectElement) (container : Object3D).

Definition SceneNodeThreeChildren (props_name : string)
    (state : SceneTreeState Matrix4 Object3D MakeObject)
  : option ChildrenResult :=
  node ← nodeFromName state !! props_name;
  let children := children node in
  let parentObj := objFromName state !! props_name in
  Some match parentObj with
       | None => NoParentObj
       | Some obj =>
           Portal
             ((λ child_id,
                 {| element_key := child_id; element_name := child_id |})
                <$> children)
             obj
       end.

(** The fragment [SceneNodeThreeObject] returns: the object its node's
    factory makes, the updater and the children component of its name. *)
Record ThreeObjectResult : Type := mkThreeObjectResult {
  made_by : MakeObject;
  updater_name : string;
  children_name : string;
}.

Definition SceneNodeThreeObject (props_name : string)
    (state : SceneTreeState Matrix4 Object3D MakeObject)
  : option ThreeObjectResult :=
  sceneNode ← nodeFromName state !! props_name;
  Some {| made_by := make_object sceneNode;
          updater_name := props_name;
          children_name := props_name |}.

End Projector.

(** ** Concrete runs

    Factories are numbered; transforms and handles carry no data. *)

Abbreviation DemoState := (SceneTreeState unit unit nat).

Definition demo_clean : DemoState := cleanSceneTreeState 0 1.

Definition demo_call : mutation → DemoState → completion * DemoState :=
  call 0 1.

Definition demo_calls : list mutation → DemoState → DemoState :=
  calls 0 1.

(** A node [/a] and a sibling [/ab] whose name extends it, with a child
    [/a/b] under the first. *)
Definition demo_siblings : DemoState :=
  demo_calls [AddNode "/a" 2; AddNode "/a/b" 3; AddNode "/ab" 4] demo_clean.

(** add [/box], add [/box/label], hide [/box], remove [/box]. *)
Definition demo_box : DemoState :=
  demo_calls
    [AddNode "/box" 2; AddNode "/box/label" 3;
     SetVisibility "/box" false; RemoveNode "/box"]
    demo_clean.

(** add [/box], hide it and move it, before a reset. *)
Definition demo_moved : DemoState :=
  demo_calls
    [AddNode "/box" 2; SetVisibility "/box" false; SetTransform "/box" ()]
    demo_clean.

(** ** Dictionaries *)

Section Dictionary.

Context {V : Type}.
Implicit Types (o : gmap string V) (k : string).

Lemma has_key_true k o : has_key k o = true ↔ is_Some (o !! k).
Proof. unfold has_key. apply bool_decide_eq_true. Qed.

Lemma has_key_false k o : has_key k o = false ↔ o !! k = None.
Proof.
  unfold has_key. rewrite bool_decide_eq_false. symmetry. apply eq_None_not_Some.
Qed.

Lemma elem_of_keys k o : k ∈ keys o ↔ is_Some (o !! k).
Proof.
  unfold keys. rewrite list_elem_of_fmap. split.
  - intros [[k' v] [-> Hin]]. apply elem_of_map_to_list in Hin. by exists v.
  - intros [v Hv]. exists (k, v). split; [done |]. by apply elem_of_map_to_list.
Qed.

(** The [forEach] loop of deletions. *)
Lemma lookup_foldl_delete (l : list string) o k :
  foldl (λ o' remove_name, delete remove_name o') o l !! k
  = if decide (k ∈ l) then None else o !! k.
Proof.
  revert o. induction l as [| r l IH]; intros o; [done |].
  cbn [foldl]. rewrite IH. destruct (decide (k = r)) as [-> | Hne].
  - rewrite lookup_delete_eq, (decide_True (P := r ∈ r :: l)) by apply list_elem_of_here.
    by case_decide.
  - rewrite lookup_delete_ne by done.
    destruct (decide (k ∈ l)) as [Hin | Hin].
    + by rewrite decide_True by (by apply list_elem_of_further).
    + rewrite decide_False; [done |].
      by intros [? | ?]%elem_of_cons.
Qed.

(** Deleting the keys that start with [n], as [removeSceneNode] does. *)
Lemma lookup_remove_names n o k :
  foldl (λ o' remove_name, delete remove_name o') o
    (filter (λ k', startsWith k' n = true) (keys o)) !! k
  = if startsWith k n then None else o !! k.
Proof.
  rewrite lookup_foldl_delete. case_decide as Hin.
  - apply list_elem_of_filter in Hin as [-> _]. done.
  - destruct (startsWith k n) eqn:Hsw; [| done].
    destruct (o !! k) as [v |] eqn:Hk; [| done].
    exfalso. apply Hin. apply list_elem_of_filter. split; [done |].
    apply elem_of_keys. by exists v.
Qed.

End Dictionary.

(** ** Paths *)

Lemma startsWith_empty (k : string) : startsWith k "" = true.
Proof. by destruct k. Qed.

Lemma empty_startsWith (p : string) : startsWith "" p = true → p = "".
Proof. by destruct p. Qed.

Lemma append_String (c : ascii) (a b : string) :
  String c a +:+ b = String c (a +:+ b).
Proof. reflexivity. Qed.

Lemma append_assoc_slash (a b seg : string) :
  (a +:+ String slash b) +:+ String slash seg
  = a +:+ String slash (b +:+ String slash seg).
Proof.
  induction a as [| c a IH]; [done |]. by rewrite !append_String, IH.
Qed.

Lemma length_append (a b : string) :
  String.length (a +:+ b) = String.length a + String.length b.
Proof.
  induction a as [| c a IH]; [done |]. rewrite append_String. cbn.
  by rewrite IH.
Qed.

Lemma split_snoc (s : string) : ∃ segs seg, split s = segs ++ [seg].
Proof.
  induction s as [| c rest (segs & seg & IH)]; [by exists [], "" |].
  cbn. case_decide.
  - exists ("" :: segs), seg. by rewrite IH.
  - rewrite IH. destruct segs as [| seg' segs]; cbn.
    + by exists [], (String c seg).
    + by exists (String c seg' :: segs), seg.
Qed.

Lemma join_snoc (segs : list string) (seg : string) :
  segs ≠ [] → join (segs ++ [seg]) = join segs +:+ String slash seg.
Proof.
  induction segs as [| x segs IH]; [done |]. intros _.
  destruct segs as [| y segs]; [done |].
  change (join ((x :: y :: segs) ++ [seg]))
    with (x +:+ String slash (join ((y :: segs) ++ [seg]))).
  rewrite IH by done.
  change (join (x :: y :: segs)) with (x +:+ String slash (join (y :: segs))).
  by rewrite append_assoc_slash.
Qed.

Lemma split_cons (s : string) : ∃ seg segs, split s = seg :: segs.
Proof.
  destruct (split_snoc s) as ([| x segs] & seg & ->); cbn; eauto.
Qed.

Lemma join_split (s : string) : join (split s) = s.
Proof.
  induction s as [| c rest IH]; [done |]. cbn [split].
  destruct (split_cons rest) as (seg & segs & Hsplit).
  rewrite Hsplit in *. case_decide as Hc.
  - rewrite Hc.
    change (join ("" :: seg :: segs))
      with ("" +:+ String slash (join (seg :: segs))).
    by rewrite IH.
  - rewrite <- IH. by destruct segs.
Qed.

(** The parent path is shorter than the path, the root path apart. *)
Lemma parent_name_shorter (p : string) :
  p ≠ "" → String.length (parent_name p) < String.length p.
Proof.
  intros Hnonroot. unfold parent_name, slice_0_m1.
  destruct (split_snoc p) as (segs & seg & Hsplit).
  assert (p = join (segs ++ [seg])) as Hp by by rewrite <- Hsplit, join_split.
  rewrite Hsplit.
  replace (length (segs ++ [seg]) - 1) with (length segs)
    by (rewrite length_app; cbn; lia).
  rewrite take_app_length. subst p.
  destruct segs as [| x segs].
  - destruct seg; [done | cbn; lia].
  - rewrite join_snoc by done. rewrite length_append. cbn. lia.
Qed.

(** Only the root path is its own parent path. *)
Lemma parent_name_fixed (p : string) : parent_name p = p ↔ p = "".
Proof.
  split; [| by intros ->].
  intros Hfixed. destruct (decide (p = "")) as [| Hnonroot]; [done |].
  apply parent_name_shorter in Hnonroot. rewrite Hfixed in Hnonroot. lia.
Qed.

(** ** What each action does to the store *)

Section Actions.

Context {Matrix4 Object3D MakeObject : Type}.
Variables rootFrameTemplate rootAxesTemplate : MakeObject.

Abbreviation Store := (SceneTreeState Matrix4 Object3D MakeObject).
Abbreviation Node := (SceneNode MakeObject).

Implicit Types (s : Store) (node : Node) (p q : string).

Lemma state_eq s s' :
  nodeFromName s = nodeFromName s' →
  visibilityFromName s = visibilityFromName s' →
  matrixFromName s = matrixFromName s' →
  objFromName s = objFromName s' →
  s = s'.
Proof. destruct s, s'; simpl; by intros -> -> -> ->. Qed.

(** The replacement branch of [addSceneNode]. *)
Lemma addSceneNode_recipe_present s node old :
  nodeFromName s !! name node = Some old →
  addSceneNode_recipe node s
  = Some (with_nodes
            (<[name node := {| name := name node;
                               children := children old;
                               make_object := make_object node |}]>
               (nodeFromName s)) s).
Proof.
  intros Hold. unfold addSceneNode_recipe.
  rewrite (proj2 (has_key_true _ _)) by eauto.
  by rewrite Hold.
Qed.

(** The insertion branch, when the read of the parent entry finds one. *)
Lemma addSceneNode_recipe_fresh s node parent :
  nodeFromName s !! name node = None →
  <[name node := node]> (nodeFromName s) !! parent_name (name node) = Some parent →
  addSceneNode_recipe node s
  = Some {| nodeFromName :=
              <[parent_name (name node) :=
                  {| name := name parent;
                     children := children parent ++ [name node];
                     make_object := make_object parent |}]>
                (<[name node := node]> (nodeFromName s));
            visibilityFromName :=
              match visibilityFromName s !! name node with
              | Some _ => visibilityFromName s
              | None => <[name node := true]> (visibilityFromName s)
              end;
            matrixFromName := matrixFromName s;
            objFromName := objFromName s |}.
Proof.
  intros Hfresh Hparent. unfold addSceneNode_recipe.
  rewrite (proj2 (has_key_false _ _)) by done.
  unfold push_child. cbn [nodeFromName with_nodes]. rewrite Hparent. cbn.
  destruct (visibilityFromName s !! name node) as [v |] eqn:Hv.
  - by rewrite (proj2 (has_key_true _ _)) by eauto.
  - by rewrite (proj2 (has_key_false _ _)) by done.
Qed.

(** The insertion branch, when the parent entry is [undefined]. *)
Lemma addSceneNode_recipe_orphan s node :
  nodeFromName s !! name node = None →
  <[name node := node]> (nodeFromName s) !! parent_name (name node) = None →
  addSceneNode_recipe node s = None.
Proof.
  intros Hfresh Hparent. unfold addSceneNode_recipe.
  rewrite (proj2 (has_key_false _ _)) by done.
  unfold push_child. cbn [nodeFromName with_nodes]. by rewrite Hparent.
Qed.

(** The early return of [removeSceneNode]. *)
Lemma removeSceneNode_recipe_absent s p :
  nodeFromName s !! p = None → removeSceneNode_recipe p s = Some s.
Proof.
  intros Habsent. unfold removeSceneNode_recipe.
  by rewrite (proj2 (has_key_false _ _)) by done.
Qed.

(** The removal proper: the registry loses every key that starts with
    [p], the two overlays lose the key [p] alone. *)
Lemma removeSceneNode_recipe_present s p parent :
  is_Some (nodeFromName s !! p) →
  nodeFromName s !! parent_name p = Some parent →
  ∃ s', removeSceneNode_recipe p s = Some s'
    ∧ (∀ q, nodeFromName s' !! q
            = if startsWith q p then None
              else <[parent_name p :=
                       {| name := name parent;
                          children := filter (λ child_name, child_name ≠ p)
                                        (children parent);
                          make_object := make_object parent |}]>
                     (nodeFromName s) !! q)
    ∧ visibilityFromName s' = delete p (visibilityFromName s)
    ∧ matrixFromName s' = delete p (matrixFromName s)
    ∧ objFromName s' = objFromName s.
Proof.
  intros Hp Hparent. unfold removeSceneNode_recipe.
  rewrite (proj2 (has_key_true _ _)) by done.
  unfold filter_children. rewrite Hparent. cbn.
  eexists. split; [reflexivity |]. cbn. split; [| done].
  intros q. apply lookup_remove_names.
Qed.

(** With the parent entry missing, adding a non-root path throws: the
    registry write made before the failing read goes with the draft. *)
Lemma addSceneNode_orphan_throws s node :
  name node ≠ "" →
  nodeFromName s !! name node = None →
  nodeFromName s !! parent_name (name node) = None →
  addSceneNode node s = (Thrown, s).
Proof.
  intros Hnonroot Hfresh Horphan. unfold addSceneNode, set.
  rewrite addSceneNode_recipe_orphan; [done.. |].
  rewrite lookup_insert_ne; [done |].
  intros Heq. symmetry in Heq. by apply parent_name_fixed in Heq.
Qed.

(** A removal that goes through deletes every key that starts with the
    removed path, on a slash boundary or not. *)
Lemma removeSceneNode_deletes_extensions s p q :
  is_Some (nodeFromName s !! p) →
  is_Some (nodeFromName s !! parent_name p) →
  startsWith q p = true →
  nodeFromName (removeSceneNode p s).2 !! q = None.
Proof.
  intros Hp [parent Hparent] Hsw.
  destruct (removeSceneNode_recipe_present s p parent Hp Hparent)
    as (s' & Hrun & Hnodes & _).
  unfold removeSceneNode, set. rewrite Hrun. cbn. by rewrite Hnodes, Hsw.
Qed.

(** [resetScene] commits the draft it was given. *)
Lemma resetScene_unchanged s :
  resetScene rootFrameTemplate rootAxesTemplate s = (Returned, s).
Proof. reflexivity. Qed.

Lemma rooted_or_empty_call (m : mutation) s :
  rooted_or_empty (nodeFromName s) →
  rooted_or_empty
    (nodeFromName (call rootFrameTemplate rootAxesTemplate m s).2).
Proof.
  intros Hinv. destruct m as [p mk | p | | | | |]; try exact Hinv.
  - (* AddNode *)
    cbn [call]. unfold addSceneNode, set.
    destruct (nodeFromName s !! p) as [old |] eqn:Hp.
    + rewrite (addSceneNode_recipe_present s (new_SceneNode p mk) old Hp).
      cbn. left. destruct Hinv as [Hroot | Hempty].
      * apply lookup_insert_is_Some'. by right.
      * by rewrite Hempty, lookup_empty in Hp.
    + destruct (<[p := new_SceneNode p mk]> (nodeFromName s) !! parent_name p)
        as [parent |] eqn:Hparent.
      * rewrite (addSceneNode_recipe_fresh s (new_SceneNode p mk) parent)
          by done.
        cbn. left. rewrite !lookup_insert_is_Some'.
        destruct Hinv as [Hroot | Hempty]; [by right; right |].
        rewrite Hempty in Hparent.
        apply lookup_insert_Some in Hparent as [[Hfixed _] | [_ Hparent]];
          [| by rewrite lookup_empty in Hparent].
        right. left. symmetry in Hfixed. by apply parent_name_fixed in Hfixed.
      * by rewrite (addSceneNode_recipe_orphan s (new_SceneNode p mk)).
  - (* RemoveNode *)
    cbn [call]. unfold removeSceneNode, set.
    destruct (nodeFromName s !! p) as [node |] eqn:Hp;
      [| by rewrite removeSceneNode_recipe_absent].
    destruct (nodeFromName s !! parent_name p) as [parent |] eqn:Hparent.
    + destruct (removeSceneNode_recipe_present s p parent) as
        (s' & Hrun & Hnodes & _); [by eauto | done |].
      rewrite Hrun. cbn. destruct (decide (p = "")) as [-> | Hnonroot].
      * right. apply map_eq. intros q.
        by rewrite Hnodes, startsWith_empty, lookup_empty.
      * left. rewrite Hnodes.
        destruct (startsWith "" p) eqn:Hsw;
          [by apply empty_startsWith in Hsw |].
        apply lookup_insert_is_Some'. right.
        destruct Hinv as [Hroot | Hempty]; [done |].
        by rewrite Hempty, lookup_empty in Hp.
    + unfold removeSceneNode_recipe.
      rewrite (proj2 (has_key_true _ _)) by eauto.
      unfold filter_children. by rewrite Hparent.
Qed.

Lemma rooted_or_empty_calls (ms : list mutation) s :
  rooted_or_empty (nodeFromName s) →
  rooted_or_empty
    (nodeFromName (calls rootFrameTemplate rootAxesTemplate ms s)).
Proof.
  revert s. induction ms as [| m ms IH]; intros s Hinv; [done |].
  unfold calls. cbn [foldl]. apply IH. by apply rooted_or_empty_call.
Qed.

Lemma removeSceneNode_root_registry s :
  is_Some (nodeFromName s !! "") →
  nodeFromName (removeSceneNode "" s).2 = ∅.
Proof.
  intros Hroot.
  apply map_eq. intros q. rewrite lookup_empty.
  apply removeSceneNode_deletes_extensions; [done | done |].
  apply startsWith_empty.
Qed.

(** Removing the root empties the registry of every store the calls can
    reach from the default store. *)
Lemma removeSceneNode_root_reachable (ms : list mutation) (clean : Store) :
  clean = cleanSceneTreeState rootFrameTemplate rootAxesTemplate →
  nodeFromName
    (removeSceneNode ""
       (calls rootFrameTemplate rootAxesTemplate ms clean)).2
  = ∅.
Proof.
  intros ->.
  destruct (rooted_or_empty_calls ms
              (cleanSceneTreeState rootFrameTemplate rootAxesTemplate))
    as [Hroot | Hempty].
  - left. cbn. rewrite lookup_insert_eq. eauto.
  - by apply removeSceneNode_root_registry.
  - unfold removeSceneNode, set.
    rewrite removeSceneNode_recipe_absent; [done |].
    by rewrite Hempty, lookup_empty.
Qed.

(** ** Re-adding a path *)

(** C4.  When the registry holds an entry at [p] with child list [C],
    [addSceneNode] of a node named [p] returns, stores the node's factory
    at [p] with the child list [C] as it was, and changes no other
    registry entry and none of the three overlays. *)
Theorem addSceneNode_existing_keeps_children s node p old :
  name node = p →
  nodeFromName s !! p = Some old →
  let s' := (addSceneNode node s).2 in
  (addSceneNode node s).1 = Returned
  ∧ nodeFromName s' !! p
    = Some {| name := p; children := children old;
              make_object := make_object node |}
  ∧ (∀ q, q ≠ p → nodeFromName s' !! q = nodeFromName s !! q)
  ∧ visibilityFromName s' = visibilityFromName s
  ∧ matrixFromName s' = matrixFromName s
  ∧ objFromName s' = objFromName s.
Proof.
  intros <- Hold. unfold addSceneNode, set.
  rewrite (addSceneNode_recipe_present _ _ _ Hold). cbn.
  split; [done |]. split; [by rewrite lookup_insert_eq |].
  split; [| done]. intros q Hq. by rewrite lookup_insert_ne.
Qed.

(** ** Removing a path that is not there *)

(** C5.  When the registry has no entry at [p], [removeSceneNode p]
    returns and the store after the call is the store before it. *)
Theorem removeSceneNode_absent_noop s p :
  nodeFromName s !! p = None →
  removeSceneNode p s = (Returned, s).
Proof.
  intros Habsent. unfold removeSceneNode, set.
  by rewrite removeSceneNode_recipe_absent.
Qed.

(** ** Adding under a parent that is not there *)

(** C6.  When the registry has an entry neither at the node's path [p]
    nor at [parent_name p], [addSceneNode] either throws and leaves the
    store as it was, or returns with the whole insertion done: the entry
    at [p], [p] appended to the child list of the entry at
    [parent_name p], and the visibility default.  Either way an entry at
    [p] in the store after the call comes with [p] in the child list of
    the entry at [parent_name p]. *)
Theorem addSceneNode_orphan_all_or_nothing s node p :
  name node = p →
  nodeFromName s !! p = None →
  nodeFromName s !! parent_name p = None →
  let s' := (addSceneNode node s).2 in
  (((addSceneNode node s).1 = Thrown ∧ s' = s)
   ∨ ((addSceneNode node s).1 = Returned
      ∧ (∃ parent,
            <[p := node]> (nodeFromName s) !! parent_name p = Some parent
            ∧ nodeFromName s'
              = <[parent_name p :=
                    {| name := name parent;
                       children := children parent ++ [p];
                       make_object := make_object parent |}]>
                  (<[p := node]> (nodeFromName s)))
      ∧ is_Some (nodeFromName s' !! p)
      ∧ visibilityFromName s'
        = match visibilityFromName s !! p with
          | Some _ => visibilityFromName s
          | None => <[p := true]> (visibilityFromName s)
          end
      ∧ matrixFromName s' = matrixFromName s
      ∧ objFromName s' = objFromName s))
  ∧ (is_Some (nodeFromName s' !! p) →
     ∃ parent, nodeFromName s' !! parent_name p = Some parent
               ∧ p ∈ children parent).
Proof.
  intros <- Hfresh Horphan. unfold addSceneNode, set.
  destruct (<[name node := node]> (nodeFromName s) !! parent_name (name node))
    as [parent |] eqn:Hparent.
  - rewrite (addSceneNode_recipe_fresh _ _ _ Hfresh Hparent). cbn.
    assert (is_Some
              (<[parent_name (name node) :=
                   {| name := name parent;
                      children := children parent ++ [name node];
                      make_object := make_object parent |}]>
                 (<[name node := node]> (nodeFromName s)) !! name node)) as Hin.
    { destruct (decide (parent_name (name node) = name node)) as [-> | Hne].
      - rewrite lookup_insert_eq. eauto.
      - rewrite lookup_insert_ne, lookup_insert_eq by done. eauto. }
    split.
    + right. split; [done |]. split; [by exists parent |]. by split.
    + intros _. eexists. rewrite lookup_insert_eq. split; [done |]. cbn.
      apply elem_of_app. right. apply list_elem_of_here.
  - rewrite (addSceneNode_recipe_orphan _ _ Hfresh Hparent). cbn.
    split; [by left |]. rewrite Hfresh. by intros [? ?].
Qed.

(** ** Visibility writes *)

(** C8.  Two [setVisibility] calls on one path leave the store that the
    second call alone leaves, and the overlay maps the path to the second
    value. *)
Theorem setVisibility_last_write_wins s p (v1 v2 : bool) :
  setVisibility p v2 (setVisibility p v1 s).2 = setVisibility p v2 s
  ∧ visibilityFromName (setVisibility p v2 (setVisibility p v1 s).2).2 !! p
    = Some v2.
Proof.
  unfold setVisibility, set, setVisibility_recipe, with_visibility. cbn.
  rewrite insert_insert_eq. split; [done |]. apply lookup_insert_eq.
Qed.

(** C9.  When the registry has no entry at [p], [setVisibility p v]
    returns and records [v] at [p]; a following [addSceneNode] of a node
    named [p], its parent entry being there, returns and the overlay
    still maps [p] to [v].  [addSceneNode] of that node on any such
    store writes [true] at [p] when the overlay has no entry at [p], and
    leaves the overlay as it is otherwise. *)
Theorem setVisibility_before_add_is_kept s node p (v : bool) :
  name node = p →
  nodeFromName s !! p = None →
  is_Some (nodeFromName s !! parent_name p) →
  let s1 := (setVisibility p v s).2 in
  (setVisibility p v s).1 = Returned
  ∧ visibilityFromName s1 !! p = Some v
  ∧ nodeFromName s1 = nodeFromName s
  ∧ (addSceneNode node s1).1 = Returned
  ∧ is_Some (nodeFromName (addSceneNode node s1).2 !! p)
  ∧ visibilityFromName (addSceneNode node s1).2 !! p = Some v
  ∧ visibilityFromName (addSceneNode node s).2
    = match visibilityFromName s !! p with
      | Some _ => visibilityFromName s
      | None => <[p := true]> (visibilityFromName s)
      end.
Proof.
  intros <- Hfresh [parent Hparent].
  assert (parent_name (name node) ≠ name node) as Hne by congruence.
  assert (∀ s0 : Store, nodeFromName s0 = nodeFromName s →
            <[name node := node]> (nodeFromName s0) !! parent_name (name node)
            = Some parent) as Hread.
  { intros s0 ->. by rewrite lookup_insert_ne. }
  unfold setVisibility, addSceneNode, set. cbn.
  split; [done |]. split; [by rewrite lookup_insert_eq |]. split; [done |].
  rewrite (addSceneNode_recipe_fresh _ _ parent) by (done || by apply Hread).
  rewrite (addSceneNode_recipe_fresh s _ parent) by (done || by apply Hread).
  cbn. rewrite lookup_insert_eq. split; [done |]. split.
  - rewrite lookup_insert_ne, lookup_insert_eq by done. eauto.
  - split; [by rewrite lookup_insert_eq | done].
Qed.

(** ** Removing the root *)

(** C10.  When the registry holds the root entry, [removeSceneNode ""]
    returns and leaves the registry empty; the visibility and transform
    overlays lose the key [""] and nothing else, and the handle overlay
    is as it was. *)
Theorem removeSceneNode_root_empties_registry s :
  is_Some (nodeFromName s !! "") →
  removeSceneNode "" s
  = (Returned,
     {| nodeFromName := ∅;
        visibilityFromName := delete "" (visibilityFromName s);
        matrixFromName := delete "" (matrixFromName s);
        objFromName := objFromName s |}).
Proof.
  intros Hroot. destruct (Hroot) as [root Hroot'].
  destruct (removeSceneNode_recipe_present s "" root Hroot Hroot')
    as (s' & Hrun & Hnodes & Hvis & Hmat & Hobj).
  unfold removeSceneNode, set. rewrite Hrun. f_equal.
  apply state_eq; cbn; [| done..].
  apply map_eq. intros q. by rewrite Hnodes, startsWith_empty, lookup_empty.
Qed.

End Actions.

(** ** Child lists after additions in root-to-leaf order *)

Section ChildLists.

Context {Matrix4 Object3D MakeObject : Type}.
Variables rootFrameTemplate rootAxesTemplate : MakeObject.

Implicit Types (s : SceneTreeState Matrix4 Object3D MakeObject).
Implicit Types (o : gmap string (SceneNode MakeObject)).
Implicit Types (p q k : string) (l : list string).

Lemma count_app_singleton k l p :
  count k (l ++ [p]) = count k l + (if decide (p = k) then 1 else 0).
Proof.
  unfold count. rewrite filter_app, length_app. f_equal.
  rewrite filter_cons. by case_decide.
Qed.

Lemma count_pos_elem_of k l : 0 < count k l ↔ k ∈ l.
Proof.
  unfold count. induction l as [| x l IH].
  - split; [cbn; lia | by inversion 1].
  - rewrite filter_cons, elem_of_cons. case_decide as Hx; cbn.
    + split; [intros _; left; done | lia].
    + rewrite IH. split; [by right | by intros [-> | ?]].
Qed.

Lemma sum_list_with_zero {A : Type} (f : A → nat) (xs : list A) :
  (∀ x, x ∈ xs → f x = 0) → sum_list_with f xs = 0.
Proof.
  induction xs as [| x xs IH]; intros Hzero; [done |]. cbn.
  rewrite (Hzero x) by apply list_elem_of_here.
  rewrite IH; [done |]. intros y Hy. apply Hzero. by apply list_elem_of_further.
Qed.

(** One child list holds [p] once and no other list holds it: [p] occurs
    once in all lists together. *)
Lemma occurrences_one o p q node :
  o !! q = Some node →
  count p (children node) = 1 →
  (∀ q' node', o !! q' = Some node' → q' ≠ q → count p (children node') = 0) →
  occurrences p o = 1.
Proof.
  intros Hq Hone Hothers. unfold occurrences.
  rewrite <- (insert_delete_id o q node Hq).
  rewrite map_to_list_insert by apply lookup_delete_eq.
  cbn. rewrite Hone, sum_list_with_zero; [done |].
  intros [q' node'] Hin. apply elem_of_map_to_list in Hin.
  apply lookup_delete_Some in Hin as [Hne Hq']. cbn. eauto.
Qed.

Lemma well_placed_clean :
  well_placed
    (nodeFromName
       (cleanSceneTreeState (Matrix4 := Matrix4) (Object3D := Object3D)
          rootFrameTemplate rootAxesTemplate)).
Proof.
  assert (∀ k V (x y : V),
            is_Some (<["" := x]> (<["/WorldAxes" := y]> (∅ : gmap string V)) !! k)
            → k = "" ∨ k = "/WorldAxes") as Hdom.
  { intros k V x y [v Hv].
    apply lookup_insert_Some in Hv as [[<- _] | [_ Hv]]; [by left |].
    apply lookup_insert_Some in Hv as [[<- _] | [_ Hv]]; [by right |].
    by rewrite lookup_empty in Hv. }
  cbn [nodeFromName cleanSceneTreeState]. split; [| split].
  - rewrite lookup_insert_eq. eauto.
  - intros k Hk. apply Hdom in Hk as [-> | ->]; by rewrite lookup_insert_eq.
  - intros q node k Hq.
    apply lookup_insert_Some in Hq as [[<- <-] | [_ Hq]];
      [| apply lookup_insert_Some in Hq as [[<- <-] | [_ Hq]];
         [| by rewrite lookup_empty in Hq]].
    + cbn [children rootNodeTemplate new_SceneNode app].
      unfold count. rewrite filter_cons, filter_nil.
      destruct (decide ("/WorldAxes" = k)) as [<- | Hne].
      * rewrite decide_True; [done |]. split; [| done].
        rewrite lookup_insert_ne, lookup_insert_eq by done. eauto.
      * rewrite decide_False; [done |].
        intros (Hk & Hroot & _). apply Hdom in Hk as [-> | ->]; done.
    + cbn [children rootAxesNode new_SceneNode]. unfold count.
      rewrite filter_nil, decide_False; [done |].
      intros (Hk & Hroot & Hpar). apply Hdom in Hk as [-> | ->]; done.
Qed.

(** Replacing the factory of an entry keeps the invariant: no child list
    and no key changes. *)
Lemma well_placed_replace o p old (mk : MakeObject) :
  well_placed o →
  o !! p = Some old →
  well_placed
    (<[p := {| name := p; children := children old; make_object := mk |}]> o).
Proof.
  intros (Hroot & Hclosed & Hcount) Hold.
  assert (∀ k, is_Some
                 (<[p := {| name := p; children := children old;
                            make_object := mk |}]> o !! k)
               ↔ is_Some (o !! k)) as Hdom.
  { intros k. rewrite lookup_insert_is_Some'. split; [| by right].
    intros [<- | Hk]; [eauto | done]. }
  split; [by apply Hdom | split].
  - intros k Hk. apply Hdom, Hclosed, Hdom, Hk.
  - intros q node k Hq.
    rewrite (decide_ext _ (is_Some (o !! k) ∧ k ≠ "" ∧ q = parent_name k))
      by (by rewrite Hdom).
    apply lookup_insert_Some in Hq as [[<- <-] | [_ Hq]].
    + apply (Hcount _ _ k Hold).
    + apply (Hcount _ _ k Hq).
Qed.

(** Inserting a new entry under its parent keeps the invariant. *)
Lemma well_placed_insert o p parent (mk : MakeObject) :
  well_placed o →
  o !! p = None →
  o !! parent_name p = Some parent →
  well_placed
    (<[parent_name p :=
         {| name := name parent; children := children parent ++ [p];
            make_object := make_object parent |}]>
       (<[p := new_SceneNode p mk]> o)).
Proof.
  intros (Hroot & Hclosed & Hcount) Hfresh Hparent.
  assert (parent_name p ≠ p) as Hne by congruence.
  assert (p ≠ "") as Hnonroot.
  { intros ->. rewrite Hfresh in Hroot. by destruct Hroot. }
  assert (∀ k, is_Some
                 (<[parent_name p :=
                      {| name := name parent; children := children parent ++ [p];
                         make_object := make_object parent |}]>
                    (<[p := new_SceneNode p mk]> o) !! k)
               ↔ k = p ∨ is_Some (o !! k)) as Hdom.
  { intros k. rewrite !lookup_insert_is_Some'. split.
    - intros [<- | [<- | Hk]]; eauto.
    - intros [-> | Hk]; [right; by left | right; by right]. }
  split; [apply Hdom; by right | split].
  - intros k Hk. apply Hdom. right.
    apply Hdom in Hk as [-> | Hk]; [eauto | by apply Hclosed].
  - intros q node k Hq.
    apply lookup_insert_Some in Hq as [[<- <-] | [Hq1 Hq]];
      [| apply lookup_insert_Some in Hq as [[<- <-] | [Hq2 Hq]]].
    + (* the parent: its list gained [p] *)
      cbn [children]. rewrite count_app_singleton, (Hcount _ _ k Hparent).
      destruct (decide (p = k)) as [<- | Hk].
      * rewrite decide_False by (intros (Hin & _); rewrite Hfresh in Hin;
                                 by destruct Hin).
        rewrite decide_True; [done |]. split; [apply Hdom; by left | done].
      * rewrite Nat.add_0_r. apply decide_ext. rewrite Hdom.
        split; [intros (Hin & ? & ?); by eauto |].
        intros ([-> | Hin] & ? & ?); done.
    + (* the new entry: its list is empty, and it is no key's parent yet *)
      cbn [children new_SceneNode]. unfold count. rewrite filter_nil.
      rewrite decide_False; [done |].
      intros (Hk & _ & Hpar). apply Hdom in Hk as [-> | Hk]; [done |].
      apply Hclosed in Hk. rewrite <- Hpar, Hfresh in Hk. by destruct Hk.
    + (* any other entry *)
      rewrite (Hcount _ _ k Hq). apply decide_ext. rewrite Hdom.
      split; [intros (Hk & ? & ?); by eauto |].
      intros ([-> | Hk] & Hroot' & Hpar); done.
Qed.

(** One [AddNode] call whose parent path is a key keeps the invariant. *)
Lemma well_placed_AddNode s p (mk : MakeObject) :
  well_placed (nodeFromName s) →
  has_key (parent_name p) (nodeFromName s) = true →
  well_placed
    (nodeFromName
       (call rootFrameTemplate rootAxesTemplate (AddNode p mk) s).2).
Proof.
  intros Hwp [parent Hparent]%has_key_true. cbn [call].
  unfold addSceneNode, set.
  destruct (nodeFromName s !! p) as [old |] eqn:Hp.
  - rewrite (addSceneNode_recipe_present s (new_SceneNode p mk) old Hp). cbn.
    by apply well_placed_replace.
  - assert (parent_name p ≠ p) as Hne by congruence.
    rewrite (addSceneNode_recipe_fresh s (new_SceneNode p mk) parent);
      [| done | by cbn; rewrite lookup_insert_ne].
    cbn. by apply well_placed_insert.
Qed.

Lemma well_placed_add_all adds s :
  well_placed (nodeFromName s) →
  root_to_leaf rootFrameTemplate rootAxesTemplate adds s = true →
  well_placed
    (nodeFromName (add_all rootFrameTemplate rootAxesTemplate adds s)).
Proof.
  revert s. induction adds as [| [p mk] adds IH]; intros s Hwp Hrtl; [done |].
  cbn [root_to_leaf] in Hrtl. apply andb_true_iff in Hrtl as [Hparent Hrtl].
  unfold add_all, calls. cbn [map foldl fst snd].
  apply IH; [| done]. by apply well_placed_AddNode.
Qed.

(** The invariant places every non-root key as the claim asks. *)
Lemma well_placed_in_one_parent o p :
  well_placed o → is_Some (o !! p) → p ≠ "" → in_one_parent p o.
Proof.
  intros (Hroot & Hclosed & Hcount) Hp Hnonroot.
  destruct (Hclosed p Hp) as [parent Hparent].
  assert (count p (children parent) = 1) as Hone.
  { by rewrite (Hcount _ _ p Hparent), decide_True. }
  assert (∀ q node, o !! q = Some node → q ≠ parent_name p →
            count p (children node) = 0) as Hothers.
  { intros q node Hq Hne. rewrite (Hcount _ _ p Hq), decide_False; [done |].
    by intros (_ & _ & ->). }
  split; [by eapply occurrences_one | split; [by exists parent |]].
  intros q node Hq Hin. destruct (decide (q = parent_name p)) as [| Hne]; [done |].
  apply count_pos_elem_of in Hin. rewrite (Hothers q node Hq Hne) in Hin. lia.
Qed.

(** C7, amended.  After any sequence of [AddNode] calls on the default
    store, each made when the parent path of the added path is a key of
    the registry, every key of the registry other than the root path
    [""] occurs once in all child lists together, in the child list of
    one entry only, the entry at the key with its last segment removed. *)
Theorem root_to_leaf_adds_place_nonroot_once adds p :
  let clean :=
    cleanSceneTreeState (Matrix4 := Matrix4) (Object3D := Object3D)
      rootFrameTemplate rootAxesTemplate in
  let s := add_all rootFrameTemplate rootAxesTemplate adds clean in
  root_to_leaf rootFrameTemplate rootAxesTemplate adds clean = true →
  is_Some (nodeFromName s !! p) →
  p ≠ "" →
  in_one_parent p (nodeFromName s).
Proof.
  intros clean s Hrtl Hp Hnonroot.
  apply well_placed_in_one_parent; [| done..].
  apply well_placed_add_all; [apply well_placed_clean | done].
Qed.

End ChildLists.

(** ** Runs of the store on concrete scenes *)

(** C1.  On a registry with [/a], its child [/a/b] and a sibling [/ab],
    [removeSceneNode "/a"] deletes [/a] and [/a/b], and deletes the
    entry of [/ab] as well: [/ab] starts with [/a] and the scan of the
    keys tests nothing more.  The child list of the root still names
    [/ab]. *)
Theorem removeSceneNode_deletes_prefix_sibling :
  nodeFromName demo_siblings !! "/ab" = Some (new_SceneNode "/ab" 4)
  ∧ startsWith "/ab" "/a" = true
  ∧ startsWith "/ab" "/a/" = false
  ∧ (demo_call (RemoveNode "/a") demo_siblings).1 = Returned
  ∧ nodeFromName (demo_call (RemoveNode "/a") demo_siblings).2 !! "/a" = None
  ∧ nodeFromName (demo_call (RemoveNode "/a") demo_siblings).2 !! "/a/b" = None
  ∧ nodeFromName (demo_call (RemoveNode "/a") demo_siblings).2 !! "/ab" = None
  ∧ nodeFromName (demo_call (RemoveNode "/a") demo_siblings).2 !! ""
    = Some {| name := ""; children := ["/WorldAxes"; "/ab"]; make_object := 0 |}.
Proof. vm_compute. by repeat split. Qed.

(** C2.  [resetScene] returns with the store as it was: after adding,
    hiding and moving [/box], the store after the reset still has the
    entry of [/box], its visibility [false] and its transform, and is
    not the default store. *)
Theorem resetScene_leaves_store_as_it_was :
  demo_call Reset demo_moved = (Returned, demo_moved)
  ∧ nodeFromName (demo_call Reset demo_moved).2 !! "/box"
    = Some (new_SceneNode "/box" 2)
  ∧ visibilityFromName (demo_call Reset demo_moved).2 !! "/box" = Some false
  ∧ matrixFromName (demo_call Reset demo_moved).2 !! "/box" = Some ()
  ∧ (demo_call Reset demo_moved).2 ≠ demo_clean.
Proof.
  split; [reflexivity |]. repeat split; [vm_compute; reflexivity.. |].
  intros Heq. apply (f_equal (λ s, matrixFromName s !! "/box")) in Heq.
  vm_compute in Heq. discriminate.
Qed.

(** C3.  After add [/box], add [/box/label], hide [/box], remove
    [/box], the registry has neither path and the visibility overlay has
    no entry for [/box], but it still has the entry [true] that the
    addition of [/box/label] wrote. *)
Theorem removeSceneNode_leaves_descendant_visibility :
  nodeFromName demo_box !! "/box" = None
  ∧ nodeFromName demo_box !! "/box/label" = None
  ∧ visibilityFromName demo_box !! "/box" = None
  ∧ matrixFromName demo_box !! "/box" = None
  ∧ matrixFromName demo_box !! "/box/label" = None
  ∧ visibilityFromName demo_box !! "/box/label" = Some true.
Proof. vm_compute. by repeat split. Qed.

(** C7 as stated fails at the root: after re-adding the root and adding
    [/a], both with their parent path a key, the root path is a key of
    the registry and occurs in no child list. *)
Lemma root_in_no_child_list :
  root_to_leaf 0 1 [("", 5); ("/a", 2)] demo_clean = true
  ∧ nodeFromName (add_all 0 1 [("", 5); ("/a", 2)] demo_clean) !! ""
    = Some {| name := ""; children := ["/WorldAxes"; "/a"]; make_object := 5 |}
  ∧ occurrences "" (nodeFromName (add_all 0 1 [("", 5); ("/a", 2)] demo_clean))
    = 0
  ∧ ¬ in_one_parent ""
        (nodeFromName (add_all 0 1 [("", 5); ("/a", 2)] demo_clean)).
Proof.
  split; [vm_compute; reflexivity |]. split; [vm_compute; reflexivity |].
  split; [vm_compute; reflexivity |].
  intros [Hocc _]. vm_compute in Hocc. discriminate.
Qed.

(** Re-adding [/a] with factory 9 keeps its child list [[/a/b]]. *)
Lemma addSceneNode_existing_keeps_children_witness :
  nodeFromName demo_siblings !! "/a"
  = Some {| name := "/a"; children := ["/a/b"]; make_object := 2 |}
  ∧ nodeFromName (addSceneNode (new_SceneNode "/a" 9) demo_siblings).2 !! "/a"
    = Some {| name := "/a"; children := ["/a/b"]; make_object := 9 |}
  ∧ visibilityFromName (addSceneNode (new_SceneNode "/a" 9) demo_siblings).2
    = visibilityFromName demo_siblings.
Proof.
  assert (nodeFromName demo_siblings !! "/a"
          = Some {| name := "/a"; children := ["/a/b"]; make_object := 2 |})
    as Hold by (vm_compute; reflexivity).
  split; [exact Hold |].
  destruct (addSceneNode_existing_keeps_children
              demo_siblings (new_SceneNode "/a" 9) "/a" _ eq_refl Hold)
    as (_ & Hnode & _ & Hvis & _).
  by split.
Defined.

(** Removing [/nowhere] from the scene of the siblings. *)
Lemma removeSceneNode_absent_noop_witness :
  nodeFromName demo_siblings !! "/nowhere" = None
  ∧ removeSceneNode "/nowhere" demo_siblings = (Returned, demo_siblings).
Proof.
  assert (nodeFromName demo_siblings !! "/nowhere" = None)
    as Habsent by (vm_compute; reflexivity).
  split; [exact Habsent |].
  exact (removeSceneNode_absent_noop demo_siblings "/nowhere" Habsent).
Defined.

(** Adding [/x/y] to the default store, where [/x] is no key. *)
Lemma addSceneNode_orphan_all_or_nothing_witness :
  nodeFromName demo_clean !! "/x/y" = None
  ∧ nodeFromName demo_clean !! parent_name "/x/y" = None
  ∧ (is_Some (nodeFromName (addSceneNode (new_SceneNode "/x/y" 7) demo_clean).2
               !! "/x/y") →
     ∃ parent,
       nodeFromName (addSceneNode (new_SceneNode "/x/y" 7) demo_clean).2
         !! parent_name "/x/y" = Some parent
       ∧ "/x/y" ∈ children parent).
Proof.
  assert (nodeFromName demo_clean !! "/x/y" = None)
    as Hfresh by (vm_compute; reflexivity).
  assert (nodeFromName demo_clean !! parent_name "/x/y" = None)
    as Horphan by (vm_compute; reflexivity).
  split; [exact Hfresh |]. split; [exact Horphan |].
  exact (proj2 (addSceneNode_orphan_all_or_nothing
                  demo_clean (new_SceneNode "/x/y" 7) "/x/y"
                  eq_refl Hfresh Horphan)).
Defined.

(** Three additions in root-to-leaf order, then the place of [/a/b]. *)
Lemma root_to_leaf_adds_place_nonroot_once_witness :
  root_to_leaf 0 1 [("/a", 2); ("/a/b", 3); ("/ab", 4)] demo_clean = true
  ∧ in_one_parent "/a/b"
      (nodeFromName
         (add_all 0 1 [("/a", 2); ("/a/b", 3); ("/ab", 4)] demo_clean)).
Proof.
  assert (root_to_leaf 0 1 [("/a", 2); ("/a/b", 3); ("/ab", 4)] demo_clean = true)
    as Hrtl by (vm_compute; reflexivity).
  split; [exact Hrtl |].
  apply (root_to_leaf_adds_place_nonroot_once (Matrix4 := unit)
           (Object3D := unit) 0 1 [("/a", 2); ("/a/b", 3); ("/ab", 4)] "/a/b").
  - exact Hrtl.
  - vm_compute. eauto.
  - discriminate.
Defined.

(** Hiding [/box] before it is added to the default store. *)
Lemma setVisibility_before_add_is_kept_witness :
  nodeFromName demo_clean !! "/box" = None
  ∧ is_Some (nodeFromName demo_clean !! parent_name "/box")
  ∧ visibilityFromName
      (addSceneNode (new_SceneNode "/box" 2)
         (setVisibility "/box" false demo_clean).2).2 !! "/box"
    = Some false.
Proof.
  assert (nodeFromName demo_clean !! "/box" = None)
    as Hfresh by (vm_compute; reflexivity).
  assert (is_Some (nodeFromName demo_clean !! parent_name "/box"))
    as Hparent by (vm_compute; eauto).
  split; [exact Hfresh |]. split; [exact Hparent |].
  destruct (setVisibility_before_add_is_kept
              demo_clean (new_SceneNode "/box" 2) "/box" false
              eq_refl Hfresh Hparent)
    as (_ & _ & _ & _ & _ & Hkept & _).
  exact Hkept.
Defined.

(** Removing the root of the scene of the siblings. *)
Lemma removeSceneNode_root_empties_registry_witness :
  is_Some (nodeFromName demo_siblings !! "")
  ∧ nodeFromName (removeSceneNode "" demo_siblings).2 = ∅.
Proof.
  assert (is_Some (nodeFromName demo_siblings !! ""))
    as Hroot by (vm_compute; eauto).
  split; [exact Hroot |].
  by rewrite (removeSceneNode_root_empties_registry demo_siblings Hroot).
Defined.

(** ** Parent paths *)

Lemma startsWith_refl (p : string) : startsWith p p = true.
Proof. induction p as [| c p IH]; [done |]. cbn. by rewrite decide_True. Qed.

Lemma startsWith_append (a b : string) : startsWith (a +:+ b) a = true.
Proof.
  induction a as [| c a IH]; [apply startsWith_empty |].
  rewrite append_String. cbn. by rewrite decide_True.
Qed.

Lemma startsWith_trans (a b c : string) :
  startsWith a b = true → startsWith b c = true → startsWith a c = true.
Proof.
  revert a b. induction c as [| x c IH]; intros a b Hab Hbc;
    [apply startsWith_empty |].
  destruct b as [| y b]; [done |]. destruct a as [| z a]; [done |].
  cbn in *. repeat case_decide; try done; subst; [eauto | done].
Qed.

Lemma startsWith_length (a b : string) :
  startsWith a b = true → String.length b ≤ String.length a.
Proof.
  revert a. induction b as [| y b IH]; intros a Hab; [cbn; lia |].
  destruct a as [| z a]; [done |]. cbn in *. case_decide; [| done].
  apply IH in Hab. lia.
Qed.

Lemma split_append_slash (q r : string) :
  split (q +:+ String slash r) = split q ++ split r.
Proof.
  induction q as [| c q IH]; [reflexivity |].
  rewrite append_String. cbn [split]. rewrite IH. case_decide; [done |].
  by destruct (split_cons q) as (seg & segs & ->).
Qed.

Lemma split_no_slash (seg : string) : has_slash seg = false → split seg = [seg].
Proof.
  induction seg as [| c seg IH]; [done |]. cbn. case_decide; [done |].
  intros Hfree. by rewrite IH.
Qed.

(** The parent path is a prefix of the path. *)
Lemma startsWith_parent_name (p : string) : startsWith p (parent_name p) = true.
Proof.
  unfold parent_name, slice_0_m1.
  destruct (split_snoc p) as (segs & seg & Hsplit).
  rewrite <- (join_split p) at 1. rewrite Hsplit.
  replace (length (segs ++ [seg]) - 1) with (length segs)
    by (rewrite length_app; cbn; lia).
  rewrite take_app_length. destruct segs as [| x segs]; [apply startsWith_empty |].
  rewrite join_snoc by done. apply startsWith_append.
Qed.

(** X1.  The parent path of [q], a slash and a slash-free segment is
    [q]: what [addSceneNode] and [removeSceneNode] compute as the parent
    of a child path built under [q] is [q] itself. *)
Theorem parent_name_of_child (q seg : string) :
  has_slash seg = false →
  parent_name (q +:+ String slash seg) = q.
Proof.
  intros Hfree. unfold parent_name, slice_0_m1.
  rewrite split_append_slash, (split_no_slash seg Hfree).
  replace (length (split q ++ [seg]) - 1) with (length (split q))
    by (rewrite length_app; cbn; lia).
  by rewrite take_app_length, join_split.
Qed.

(** X2.  For every path but the root path, the parent path is a prefix
    of the path, shorter than it, and the path does not in turn prefix
    its parent; the root path is its own parent. *)
Theorem parent_name_proper_prefix (p : string) :
  p ≠ "" →
  startsWith p (parent_name p) = true
  ∧ String.length (parent_name p) < String.length p
  ∧ startsWith (parent_name p) p = false
  ∧ parent_name "" = "".
Proof.
  intros Hnonroot. pose proof (parent_name_shorter p Hnonroot) as Hshort.
  split; [apply startsWith_parent_name |]. split; [done |]. split; [| done].
  destruct (startsWith (parent_name p) p) eqn:Hsw; [| done].
  apply startsWith_length in Hsw. lia.
Qed.

(** ** The structural actions, case by case *)

Section Structure.

Context {Matrix4 Object3D MakeObject : Type}.

Abbreviation Store := (SceneTreeState Matrix4 Object3D MakeObject).
Abbreviation Node := (SceneNode MakeObject).

Implicit Types (s : Store) (node parent : Node) (p q : string).

Lemma node_eta node :
  {| name := name node; children := children node;
     make_object := make_object node |} = node.
Proof. by destruct node. Qed.

Lemma filter_ne_snoc p (l : list string) :
  p ∉ l → filter (λ child_name, child_name ≠ p) (l ++ [p]) = l.
Proof.
  intros Hnotin. rewrite filter_app, filter_cons_False, filter_nil, app_nil_r
    by (intros Hne; by apply Hne).
  induction l as [| x l IH]; [done |].
  apply not_elem_of_cons in Hnotin as [Hx Hl].
  rewrite filter_cons_True by done. by rewrite IH.
Qed.

Lemma removeSceneNode_recipe_orphan s p :
  is_Some (nodeFromName s !! p) →
  nodeFromName s !! parent_name p = None →
  removeSceneNode_recipe p s = None.
Proof.
  intros Hp Hparent. unfold removeSceneNode_recipe.
  rewrite (proj2 (has_key_true _ _)) by done.
  unfold filter_children. by rewrite Hparent.
Qed.

(** X3.  Removing a non-root key whose parent entry is there returns;
    afterwards no key starting with the removed path is left, the parent
    entry keeps its name and factory and its child list in order without
    the removed path, and every other entry whose key does not start
    with the removed path is as before. *)
Theorem removeSceneNode_present_registry s p parent :
  p ≠ "" →
  is_Some (nodeFromName s !! p) →
  nodeFromName s !! parent_name p = Some parent →
  let s' := (removeSceneNode p s).2 in
  (removeSceneNode p s).1 = Returned
  ∧ (∀ q, startsWith q p = true → nodeFromName s' !! q = None)
  ∧ nodeFromName s' !! parent_name p
    = Some {| name := name parent;
              children := filter (λ child_name, child_name ≠ p)
                            (children parent);
              make_object := make_object parent |}
  ∧ (∀ q, startsWith q p = false → q ≠ parent_name p →
          nodeFromName s' !! q = nodeFromName s !! q).
Proof.
  intros Hnonroot Hp Hparent.
  destruct (removeSceneNode_recipe_present s p parent Hp Hparent)
    as (s' & Hrun & Hnodes & _).
  unfold removeSceneNode, set. rewrite Hrun. cbn.
  split; [done |]. split; [| split].
  - intros q Hsw. by rewrite Hnodes, Hsw.
  - rewrite Hnodes.
    destruct (startsWith (parent_name p) p) eqn:Hsw.
    + apply startsWith_length in Hsw.
      pose proof (parent_name_shorter p Hnonroot). lia.
    + by rewrite lookup_insert_eq.
  - intros q Hsw Hq. by rewrite Hnodes, Hsw, lookup_insert_ne.
Qed.

(** X4.  Whatever the store and the path, [removeSceneNode] leaves the
    handle overlay as it is, leaves the visibility and transform entries
    of every other path as they are, and makes no path a key of the
    registry that was not one. *)
Theorem removeSceneNode_frame s p :
  objFromName (removeSceneNode p s).2 = objFromName s
  ∧ (∀ q, q ≠ p →
       visibilityFromName (removeSceneNode p s).2 !! q
       = visibilityFromName s !! q
       ∧ matrixFromName (removeSceneNode p s).2 !! q = matrixFromName s !! q)
  ∧ (∀ q, is_Some (nodeFromName (removeSceneNode p s).2 !! q) →
          is_Some (nodeFromName s !! q)).
Proof.
  unfold removeSceneNode, set.
  destruct (nodeFromName s !! p) as [node |] eqn:Hp;
    [| by rewrite removeSceneNode_recipe_absent].
  destruct (nodeFromName s !! parent_name p) as [parent |] eqn:Hparent;
    [| by rewrite removeSceneNode_recipe_orphan by eauto].
  destruct (removeSceneNode_recipe_present s p parent) as
    (s' & Hrun & Hnodes & Hvis & Hmat & Hobj); [by eauto | done |].
  rewrite Hrun. cbn. split; [done |]. split.
  - intros q Hq. by rewrite Hvis, Hmat, !lookup_delete_ne.
  - intros q. rewrite Hnodes. destruct (startsWith q p); [by intros [? ?] |].
    intros [<- | Hq]%lookup_insert_is_Some'; eauto.
Qed.

(** X5.  Removing a path twice leaves the store the first removal
    left. *)
Theorem removeSceneNode_twice s p :
  (removeSceneNode p (removeSceneNode p s).2).2 = (removeSceneNode p s).2.
Proof.
  unfold removeSceneNode, set.
  destruct (nodeFromName s !! p) as [node |] eqn:Hp;
    [| rewrite (removeSceneNode_recipe_absent s p Hp); cbn;
       by rewrite (removeSceneNode_recipe_absent s p Hp)].
  assert (is_Some (nodeFromName s !! p)) as Hkey by eauto.
  destruct (nodeFromName s !! parent_name p) as [parent |] eqn:Hparent;
    [| rewrite (removeSceneNode_recipe_orphan s p Hkey Hparent); cbn;
       by rewrite (removeSceneNode_recipe_orphan s p Hkey Hparent)].
  destruct (removeSceneNode_recipe_present s p parent) as
    (s' & Hrun & Hnodes & _); [by eauto | done |].
  rewrite Hrun. cbn. rewrite removeSceneNode_recipe_absent; [done |].
  by rewrite Hnodes, startsWith_refl.
Qed.

(** X6.  Adding the same node twice ends as adding it once does: same
    completion, same store. *)
Theorem addSceneNode_twice s node :
  addSceneNode node (addSceneNode node s).2 = addSceneNode node s.
Proof.
  unfold addSceneNode, set.
  destruct (nodeFromName s !! name node) as [old |] eqn:Hp.
  - rewrite (addSceneNode_recipe_present s node old Hp). cbn.
    erewrite addSceneNode_recipe_present by apply lookup_insert_eq.
    cbn. by rewrite insert_insert_eq.
  - destruct (<[name node := node]> (nodeFromName s) !! parent_name (name node))
      as [parent |] eqn:Hparent.
    + rewrite (addSceneNode_recipe_fresh s node parent Hp Hparent). cbn.
      destruct (decide (parent_name (name node) = name node)) as [Hfix | Hne].
      * rewrite Hfix in *. rewrite lookup_insert_eq in Hparent.
        injection Hparent as <-.
        erewrite addSceneNode_recipe_present by apply lookup_insert_eq.
        cbn. by rewrite insert_insert_eq.
      * rewrite (addSceneNode_recipe_present _ node node)
          by (cbn; by rewrite lookup_insert_ne, lookup_insert_eq).
        cbn. rewrite node_eta. f_equal. apply state_eq; cbn; try done.
        apply insert_id. by rewrite lookup_insert_ne, lookup_insert_eq.
    + rewrite (addSceneNode_recipe_orphan s node Hp Hparent). cbn.
      by rewrite (addSceneNode_recipe_orphan s node Hp Hparent).
Qed.

(** X7.  Adding a new node and removing its path again gives the store
    back, when no key of the registry starts with the path, the parent
    entry is there without the path in its child list, and neither the
    visibility nor the transform overlay has an entry for the path. *)
Theorem addSceneNode_then_removeSceneNode s p (mk : MakeObject) parent :
  filter (λ k, startsWith k p = true) (keys (nodeFromName s)) = [] →
  nodeFromName s !! parent_name p = Some parent →
  p ∉ children parent →
  visibilityFromName s !! p = None →
  matrixFromName s !! p = None →
  removeSceneNode p (addSceneNode (new_SceneNode p mk) s).2 = (Returned, s).
Proof.
  intros Hscan Hparent Hnotin Hvis Hmat.
  assert (∀ k, is_Some (nodeFromName s !! k) → startsWith k p = false)
    as Hnone.
  { intros k Hk. destruct (startsWith k p) eqn:Hsw; [| done].
    assert (k ∈ filter (λ k, startsWith k p = true) (keys (nodeFromName s)))
      as Hin by (apply list_elem_of_filter; split; [done | by apply elem_of_keys]).
    rewrite Hscan in Hin. by apply elem_of_nil in Hin. }
  assert (nodeFromName s !! p = None) as Hp.
  { destruct (nodeFromName s !! p) eqn:Hp; [| done].
    assert (startsWith p p = false) as Hsw by (apply Hnone; by rewrite Hp).
    by rewrite startsWith_refl in Hsw. }
  assert (parent_name p ≠ p) as Hne by congruence.
  unfold addSceneNode, set.
  rewrite (addSceneNode_recipe_fresh s (new_SceneNode p mk) parent);
    [| done | by cbn; rewrite lookup_insert_ne].
  cbn [snd name new_SceneNode]. rewrite Hvis.
  match goal with |- removeSceneNode p ?s1 = _ =>
    destruct (removeSceneNode_recipe_present s1 p
                {| name := name parent; children := children parent ++ [p];
                   make_object := make_object parent |})
      as (s' & Hrun & Hnodes & Hvis' & Hmat' & Hobj')
  end.
  { cbn. rewrite lookup_insert_ne, lookup_insert_eq by done. eauto. }
  { cbn. by rewrite lookup_insert_eq. }
  unfold removeSceneNode, set. rewrite Hrun. f_equal.
  cbn in Hnodes, Hvis', Hmat', Hobj'. apply state_eq.
  - apply map_eq. intros q. rewrite Hnodes.
    destruct (startsWith q p) eqn:Hsw.
    + destruct (nodeFromName s !! q) eqn:Hq; [| done].
      rewrite Hnone in Hsw; [done | by rewrite Hq].
    + rewrite insert_insert_eq, filter_ne_snoc, node_eta by done.
      destruct (decide (q = parent_name p)) as [-> | Hq];
        [by rewrite lookup_insert_eq |].
      rewrite !lookup_insert_ne; [done | | done].
      intros <-. by rewrite startsWith_refl in Hsw.
  - by rewrite Hvis', delete_insert_id.
  - by rewrite Hmat', delete_id.
  - done.
Qed.


(** X9.  [removeSceneNode] throws exactly when the path is a key of the
    registry and its parent path is not; when it throws, the store is as
    before the call. *)
Theorem removeSceneNode_throws_iff s p :
  ((removeSceneNode p s).1 = Thrown
   ↔ is_Some (nodeFromName s !! p) ∧ nodeFromName s !! parent_name p = None)
  ∧ ((removeSceneNode p s).1 = Thrown → (removeSceneNode p s).2 = s).
Proof.
  unfold removeSceneNode, set.
  destruct (nodeFromName s !! p) as [node |] eqn:Hp.
  - assert (is_Some (nodeFromName s !! p)) as Hkey by eauto.
    destruct (nodeFromName s !! parent_name p) as [parent |] eqn:Hparent.
    + destruct (removeSceneNode_recipe_present s p parent Hkey Hparent)
        as (s' & Hrun & _).
      rewrite Hrun. cbn. split; [| done]. split; [done | by intros [_ ?]].
    + rewrite (removeSceneNode_recipe_orphan s p Hkey Hparent). cbn.
      split; [| done]. split; [by eauto | done].
  - rewrite (removeSceneNode_recipe_absent s p Hp). cbn.
    split; [| done]. split; [done | by intros [[? ?] _]].
Qed.

(** X10.  Adding a node whose path is no key, under a parent entry that
    is there, returns; the node is stored as given, its path is the last
    name of the parent's child list, whose other names keep their order,
    and every other entry, the transform overlay and the handle overlay
    are as before. *)
Theorem addSceneNode_fresh_appends s node p parent :
  name node = p →
  nodeFromName s !! p = None →
  nodeFromName s !! parent_name p = Some parent →
  let s' := (addSceneNode node s).2 in
  (addSceneNode node s).1 = Returned
  ∧ nodeFromName s' !! p = Some node
  ∧ nodeFromName s' !! parent_name p
    = Some {| name := name parent; children := children parent ++ [p];
              make_object := make_object parent |}
  ∧ (∀ q, q ≠ p → q ≠ parent_name p →
          nodeFromName s' !! q = nodeFromName s !! q)
  ∧ matrixFromName s' = matrixFromName s
  ∧ objFromName s' = objFromName s.
Proof.
  intros <- Hp Hparent.
  assert (parent_name (name node) ≠ name node) as Hne by congruence.
  unfold addSceneNode, set.
  rewrite (addSceneNode_recipe_fresh s node parent);
    [| done | by rewrite lookup_insert_ne].
  cbn. split; [done |].
  split; [by rewrite lookup_insert_ne, lookup_insert_eq |].
  split; [by rewrite lookup_insert_eq |]. split; [| done].
  intros q Hq1 Hq2. by rewrite !lookup_insert_ne.
Qed.

(** X11.  After a removal of [p] that went through, adding a non-root
    node whose parent path starts with [p] throws and leaves the store
    the removal left: nothing can be put back under a removed subtree
    before its root is added again. *)
Theorem addSceneNode_under_removed_throws s p node :
  is_Some (nodeFromName s !! p) →
  is_Some (nodeFromName s !! parent_name p) →
  name node ≠ "" →
  startsWith (parent_name (name node)) p = true →
  addSceneNode node (removeSceneNode p s).2
  = (Thrown, (removeSceneNode p s).2).
Proof.
  intros Hp Hparent Hnonroot Hsw.
  apply addSceneNode_orphan_throws; [done | |].
  - apply removeSceneNode_deletes_extensions; [done | done |].
    apply (startsWith_trans _ (parent_name (name node))); [| done].
    apply startsWith_parent_name.
  - by apply removeSceneNode_deletes_extensions.
Qed.

(** X18.  Whatever the store and the node, [addSceneNode] leaves the
    transform and handle overlays as they are, keeps every key of the
    registry a key, and keeps every visibility entry at its value. *)
Theorem addSceneNode_frame s node :
  matrixFromName (addSceneNode node s).2 = matrixFromName s
  ∧ objFromName (addSceneNode node s).2 = objFromName s
  ∧ (∀ q, is_Some (nodeFromName s !! q) →
          is_Some (nodeFromName (addSceneNode node s).2 !! q))
  ∧ (∀ q (v : bool), visibilityFromName s !! q = Some v →
          visibilityFromName (addSceneNode node s).2 !! q = Some v).
Proof.
  unfold addSceneNode, set.
  destruct (nodeFromName s !! name node) as [old |] eqn:Hp.
  - rewrite (addSceneNode_recipe_present s node old Hp). cbn.
    split; [done |]. split; [done |]. split; [| done].
    intros q Hq. apply lookup_insert_is_Some'. by right.
  - destruct (<[name node := node]> (nodeFromName s) !! parent_name (name node))
      as [parent |] eqn:Hparent;
      [| by rewrite (addSceneNode_recipe_orphan s node Hp Hparent)].
    rewrite (addSceneNode_recipe_fresh s node parent Hp Hparent). cbn.
    split; [done |]. split; [done |]. split.
    + intros q Hq. rewrite !lookup_insert_is_Some'. by right; right.
    + intros q v Hq. destruct (visibilityFromName s !! name node) eqn:Hv;
        [done |].
      rewrite lookup_insert_ne; [done | congruence].
Qed.

(** ** The overlay actions *)

(** X12.  Registering a handle under a name and clearing it again ends
    as clearing alone does: no handle is left under the name, and the
    registry, the other handles and the other overlays are those of the
    store before; with no handle under the name before, the store is
    the one before. *)
Theorem setObj_then_clearObj s p (obj : Object3D) :
  clearObj p (setObj p obj s).2 = clearObj p s
  ∧ objFromName (clearObj p (setObj p obj s).2).2 !! p = None
  ∧ (objFromName s !! p = None → clearObj p (setObj p obj s).2 = (Returned, s)).
Proof.
  unfold clearObj, setObj, set. cbn. unfold with_obj. cbn.
  rewrite delete_insert_eq. split; [done |].
  split; [apply lookup_delete_eq |].
  intros Hnone. rewrite delete_id by done. by destruct s.
Qed.

(** X13.  Overlay writes to two different paths give the same store in
    either order, and so do a visibility write and a transform write to
    any two paths. *)
Theorem overlay_writes_commute s p q (v w : bool) (m m' : Matrix4) :
  p ≠ q →
  setVisibility p v (setVisibility q w s).2
  = setVisibility q w (setVisibility p v s).2
  ∧ setMatrix p m (setMatrix q m' s).2 = setMatrix q m' (setMatrix p m s).2
  ∧ setMatrix p m (setVisibility p v s).2 = setVisibility p v (setMatrix p m s).2
  ∧ setMatrix q m (setVisibility p v s).2 = setVisibility p v (setMatrix q m s).2.
Proof.
  intros Hne.
  unfold setVisibility, setMatrix, set, setVisibility_recipe, setMatrix_recipe,
    with_visibility, with_matrix. cbn.
  by rewrite !(insert_insert_ne _ p q) by done.
Qed.

End Structure.

(** ** What every reachable store satisfies *)

Section Reachable.

Context {Matrix4 Object3D MakeObject : Type}.
Variables rootFrameTemplate rootAxesTemplate : MakeObject.

Abbreviation Store := (SceneTreeState Matrix4 Object3D MakeObject).
Abbreviation clean :=
  (cleanSceneTreeState (Matrix4 := Matrix4) (Object3D := Object3D)
     rootFrameTemplate rootAxesTemplate).
Abbreviation run := (calls rootFrameTemplate rootAxesTemplate).

Implicit Types (s : Store) (p q k : string).
Implicit Types (ms : list (@mutation Matrix4 Object3D MakeObject)).

Lemma store_inv_clean : store_inv clean.
Proof.
  assert (∀ k V (x y : V),
            is_Some (<["" := x]> (<["/WorldAxes" := y]> (∅ : gmap string V)) !! k)
            → k = "" ∨ k = "/WorldAxes") as Hdom.
  { intros k V x y [v Hv].
    apply lookup_insert_Some in Hv as [[<- _] | [_ Hv]]; [by left |].
    apply lookup_insert_Some in Hv as [[<- _] | [_ Hv]]; [by right |].
    by rewrite lookup_empty in Hv. }
  split; [| split]; cbn [nodeFromName visibilityFromName cleanSceneTreeState].
  - intros k node Hk.
    apply lookup_insert_Some in Hk as [[<- <-] | [_ Hk]]; [done |].
    apply lookup_insert_Some in Hk as [[<- <-] | [_ Hk]]; [done |].
    by rewrite lookup_empty in Hk.
  - intros k Hk. apply Hdom in Hk as [-> | ->]; by rewrite lookup_insert_eq.
  - intros k Hk. apply Hdom in Hk as [-> | ->].
    + by rewrite lookup_insert_eq.
    + by rewrite lookup_insert_ne, lookup_insert_eq.
Qed.

Lemma store_inv_addSceneNode s (node : SceneNode MakeObject) :
  store_inv s → store_inv (addSceneNode node s).2.
Proof.
  intros (Hname & Hclosed & Hvis). unfold addSceneNode, set.
  destruct (nodeFromName s !! name node) as [old |] eqn:Hp.
  - rewrite (addSceneNode_recipe_present s node old Hp). cbn.
    split; [| split]; cbn.
    + intros k nd [[<- <-] | [_ Hk]]%lookup_insert_Some; [done | eauto].
    + intros k Hk. apply lookup_insert_is_Some'. right. apply Hclosed.
      apply lookup_insert_is_Some' in Hk as [<- | Hk]; eauto.
    + intros k Hk. apply Hvis.
      apply lookup_insert_is_Some' in Hk as [<- | Hk]; eauto.
  - destruct (<[name node := node]> (nodeFromName s) !! parent_name (name node))
      as [parent |] eqn:Hparent;
      [| by rewrite (addSceneNode_recipe_orphan s node Hp Hparent)].
    rewrite (addSceneNode_recipe_fresh s node parent Hp Hparent). cbn.
    assert (name parent = parent_name (name node)) as Hpn.
    { apply lookup_insert_Some in Hparent as [[Hfix <-] | [_ Hparent]];
        [done | eauto]. }
    assert (is_Some (<[name node := node]> (nodeFromName s)
                       !! parent_name (name node))) as Hpkey by eauto.
    split; [| split]; cbn.
    + intros k nd [[<- <-] | [_ Hk]]%lookup_insert_Some; [done |].
      apply lookup_insert_Some in Hk as [[<- <-] | [_ Hk]]; [done | eauto].
    + intros k Hk. rewrite lookup_insert_is_Some'.
      apply lookup_insert_is_Some' in Hk as [<- | Hk].
      * apply lookup_insert_is_Some' in Hpkey as [Hfix | Hpkey].
        -- left. by rewrite <- Hfix.
        -- right. apply lookup_insert_is_Some'. right. by apply Hclosed.
      * apply lookup_insert_is_Some' in Hk as [<- | Hk]; [by left |].
        right. apply lookup_insert_is_Some'. right. by apply Hclosed.
    + assert (∀ k, is_Some (visibilityFromName s !! k) →
                is_Some (match visibilityFromName s !! name node with
                         | Some _ => visibilityFromName s
                         | None => <[name node := true]> (visibilityFromName s)
                         end !! k)) as Hmono.
      { intros k Hk. destruct (visibilityFromName s !! name node); [done |].
        apply lookup_insert_is_Some'. by right. }
      assert (is_Some (match visibilityFromName s !! name node with
                       | Some _ => visibilityFromName s
                       | None => <[name node := true]> (visibilityFromName s)
                       end !! name node)) as Hnew.
      { destruct (visibilityFromName s !! name node) eqn:Hv;
          [by rewrite Hv | by rewrite lookup_insert_eq]. }
      intros k Hk. apply lookup_insert_is_Some' in Hk as [<- | Hk].
      * apply lookup_insert_is_Some' in Hpkey as [Hfix | Hpkey];
          [by rewrite <- Hfix | eauto].
      * apply lookup_insert_is_Some' in Hk as [<- | Hk]; eauto.
Qed.

Lemma store_inv_removeSceneNode s p :
  store_inv s → store_inv (removeSceneNode p s).2.
Proof.
  intros (Hname & Hclosed & Hvis). unfold removeSceneNode, set.
  destruct (nodeFromName s !! p) as [node |] eqn:Hp;
    [| by rewrite (removeSceneNode_recipe_absent s p Hp)].
  assert (is_Some (nodeFromName s !! p)) as Hkey by eauto.
  destruct (nodeFromName s !! parent_name p) as [parent |] eqn:Hparent;
    [| by rewrite (removeSceneNode_recipe_orphan s p Hkey Hparent)].
  destruct (removeSceneNode_recipe_present s p parent Hkey Hparent)
    as (s' & Hrun & Hnodes & Hvis' & _).
  rewrite Hrun. cbn.
  assert (∀ k, is_Some (nodeFromName s' !! k) →
            startsWith k p = false ∧ is_Some (nodeFromName s !! k)) as Hsub.
  { intros k. rewrite Hnodes. destruct (startsWith k p); [by intros [? ?] |].
    intros [<- | Hk]%lookup_insert_is_Some'; eauto. }
  split; [| split].
  - intros k nd. rewrite Hnodes. destruct (startsWith k p); [done |].
    intros [[<- <-] | [_ Hk]]%lookup_insert_Some; cbn; eauto.
  - intros k Hk. apply Hsub in Hk as [Hsw Hk]. rewrite Hnodes.
    destruct (startsWith (parent_name k) p) eqn:Hsw'.
    + rewrite (startsWith_trans k (parent_name k) p) in Hsw;
        [done | apply startsWith_parent_name | done].
    + apply lookup_insert_is_Some'. right. by apply Hclosed.
  - intros k Hk. apply Hsub in Hk as [Hsw Hk]. rewrite Hvis'.
    rewrite lookup_delete_ne; [by apply Hvis |].
    intros <-. by rewrite startsWith_refl in Hsw.
Qed.

Lemma store_inv_call (m : mutation) s :
  store_inv s → store_inv (call rootFrameTemplate rootAxesTemplate m s).2.
Proof.
  intros Hinv. destruct m as [p mk | p | p v | | | |]; try exact Hinv.
  - by apply store_inv_addSceneNode.
  - by apply store_inv_removeSceneNode.
  - destruct Hinv as (Hname & Hclosed & Hvis). split; [done | split; [done |]].
    intros k Hk. cbn. apply lookup_insert_is_Some'. right. by apply Hvis.
Qed.

Lemma store_inv_calls ms s : store_inv s → store_inv (run ms s).
Proof.
  revert s. induction ms as [| m ms IH]; intros s Hinv; [done |].
  unfold calls. cbn [foldl]. apply IH. by apply store_inv_call.
Qed.

(** X14.  In every store that a sequence of calls reaches from the
    default store, an entry of the registry has the name it is stored
    under, the parent path of a key of the registry is a key of the
    registry, and a key of the registry has a visibility entry. *)
Theorem reachable_store_inv ms (k : string) :
  is_Some (nodeFromName (run ms clean) !! k) →
  (∃ node, nodeFromName (run ms clean) !! k = Some node ∧ name node = k)
  ∧ is_Some (nodeFromName (run ms clean) !! parent_name k)
  ∧ is_Some (visibilityFromName (run ms clean) !! k).
Proof.
  intros Hk.
  destruct (store_inv_calls ms clean store_inv_clean)
    as (Hname & Hclosed & Hvis).
  split; [| by eauto]. destruct Hk as [node Hk]. exists node. eauto.
Qed.

(** X15.  On every store that a sequence of calls reaches from the
    default store, [removeSceneNode] returns, whatever the path. *)
Theorem removeSceneNode_never_throws_reachable ms p :
  (removeSceneNode p (run ms clean)).1 = Returned.
Proof.
  destruct (store_inv_calls ms clean store_inv_clean) as (_ & Hclosed & _).
  unfold removeSceneNode, set.
  destruct (nodeFromName (run ms clean) !! p) as [node |] eqn:Hp;
    [| by rewrite (removeSceneNode_recipe_absent _ p Hp)].
  assert (is_Some (nodeFromName (run ms clean) !! p)) as Hkey by eauto.
  destruct (Hclosed p Hkey) as [parent Hparent].
  destruct (removeSceneNode_recipe_present _ p parent Hkey Hparent)
    as (s' & Hrun & _).
  by rewrite Hrun.
Qed.

Lemma NoDup_count (l : list string) : (∀ k, count k l ≤ 1) → NoDup l.
Proof.
  induction l as [| x l IH]; intros Hcount; [by apply NoDup_nil |].
  apply NoDup_cons. split.
  - intros Hin%count_pos_elem_of. specialize (Hcount x).
    unfold count in *. rewrite filter_cons_True in Hcount by done.
    cbn in Hcount. lia.
  - apply IH. intros k. specialize (Hcount k). unfold count in *.
    rewrite filter_cons in Hcount. case_decide; cbn in Hcount; lia.
Qed.

Lemma well_placed_children_sound (o : gmap string (SceneNode MakeObject)) :
  well_placed o → children_sound o.
Proof.
  intros (Hroot & Hclosed & Hcount) q node Hq. split.
  - apply NoDup_count. intros k. rewrite (Hcount q node k Hq).
    case_decide; lia.
  - intros k Hin%count_pos_elem_of. rewrite (Hcount q node k Hq) in Hin.
    case_decide as Hk; [| lia]. destruct Hk as (? & ? & ->). done.
Qed.

Lemma well_placed_call (m : mutation) s :
  no_removal [m] = true →
  well_placed (nodeFromName s) →
  well_placed (nodeFromName (call rootFrameTemplate rootAxesTemplate m s).2).
Proof.
  intros Hm Hwp. destruct m as [p mk | p | | | | |]; try done.
  cbn [call]. unfold addSceneNode, set.
  destruct (nodeFromName s !! p) as [old |] eqn:Hp.
  - rewrite (addSceneNode_recipe_present s (new_SceneNode p mk) old Hp). cbn.
    by apply well_placed_replace.
  - assert (parent_name p ≠ p) as Hne.
    { intros Hfix%parent_name_fixed. subst p. destruct Hwp as ([? Hroot] & _).
      congruence. }
    destruct (nodeFromName s !! parent_name p) as [parent |] eqn:Hparent.
    + rewrite (addSceneNode_recipe_fresh s (new_SceneNode p mk) parent);
        [| done | by cbn; rewrite lookup_insert_ne].
      cbn. by apply well_placed_insert.
    + rewrite (addSceneNode_recipe_orphan s (new_SceneNode p mk));
        [done | done | by cbn; rewrite lookup_insert_ne].
Qed.

Lemma well_placed_calls ms s :
  no_removal ms = true →
  well_placed (nodeFromName s) →
  well_placed (nodeFromName (run ms s)).
Proof.
  revert s. induction ms as [| m ms IH]; intros s Hms Hwp; [done |].
  unfold no_removal in Hms. cbn [forallb] in Hms.
  apply andb_true_iff in Hms as [Hm Hms].
  unfold calls. cbn [foldl]. apply IH; [done |].
  apply well_placed_call; [| done]. unfold no_removal. cbn [forallb].
  by rewrite Hm.
Qed.

(** X16.  In every store that a sequence of calls without a removal
    reaches from the default store, no child list names a path twice,
    and every name in the child list of the entry at [q] is a key of the
    registry, is not the root path, and has [q] as its parent path. *)
Theorem no_removal_children_sound ms :
  no_removal ms = true →
  children_sound (nodeFromName (run ms clean)).
Proof.
  intros Hms. apply well_placed_children_sound, well_placed_calls; [done |].
  apply well_placed_clean.
Qed.

(** X17.  The registry of every store that a sequence of calls reaches
    from the default store either holds the root entry, or is empty, and
    then [addSceneNode] of any node but one at the root path throws and
    leaves the store as it is. *)
Theorem reachable_rooted_or_stuck ms :
  is_Some (nodeFromName (run ms clean) !! "")
  ∨ (nodeFromName (run ms clean) = ∅
     ∧ ∀ node : SceneNode MakeObject,
         name node ≠ "" →
         addSceneNode node (run ms clean) = (Thrown, run ms clean)).
Proof.
  destruct (rooted_or_empty_calls rootFrameTemplate rootAxesTemplate ms clean)
    as [Hroot | Hempty].
  - left. cbn. rewrite lookup_insert_eq. eauto.
  - by left.
  - right. split; [done |]. intros node Hnonroot.
    apply addSceneNode_orphan_throws; [done | ..];
      by rewrite Hempty, lookup_empty.
Qed.

End Reachable.

(** ** The further properties on concrete scenes *)

Lemma parent_name_of_child_witness :
  has_slash "label" = false
  ∧ parent_name ("/box" +:+ String slash "label") = "/box".
Proof.
  split; [reflexivity |]. apply parent_name_of_child. reflexivity.
Defined.

Lemma parent_name_proper_prefix_witness :
  "/a/b" ≠ ""
  ∧ startsWith "/a/b" (parent_name "/a/b") = true
  ∧ startsWith (parent_name "/a/b") "/a/b" = false.
Proof.
  assert ("/a/b" ≠ "") as Hnonroot by discriminate.
  split; [exact Hnonroot |].
  destruct (parent_name_proper_prefix "/a/b" Hnonroot) as (Hpre & _ & Hnot & _).
  by split.
Defined.

(** Removing [/a] from the scene of the siblings: the root entry keeps
    [/WorldAxes] and [/ab] in its child list. *)
Lemma removeSceneNode_present_registry_witness :
  nodeFromName demo_siblings !! parent_name "/a"
  = Some {| name := ""; children := ["/WorldAxes"; "/a"; "/ab"];
            make_object := 0 |}
  ∧ nodeFromName (removeSceneNode "/a" demo_siblings).2 !! parent_name "/a"
    = Some {| name := "";
              children := filter (λ child_name, child_name ≠ "/a")
                            ["/WorldAxes"; "/a"; "/ab"];
              make_object := 0 |}.
Proof.
  assert (nodeFromName demo_siblings !! parent_name "/a"
          = Some {| name := ""; children := ["/WorldAxes"; "/a"; "/ab"];
                    make_object := 0 |}) as Hparent by (vm_compute; reflexivity).
  assert (is_Some (nodeFromName demo_siblings !! "/a")) as Hkey
    by (vm_compute; eauto).
  split; [exact Hparent |].
  destruct (removeSceneNode_present_registry demo_siblings "/a" _
              ltac:(discriminate) Hkey Hparent) as (_ & _ & Hnew & _).
  exact Hnew.
Defined.

(** Adding [/box] to the default store and removing it again. *)
Lemma addSceneNode_then_removeSceneNode_witness :
  filter (λ k, startsWith k "/box" = true) (keys (nodeFromName demo_clean)) = []
  ∧ removeSceneNode "/box" (addSceneNode (new_SceneNode "/box" 2) demo_clean).2
    = (Returned, demo_clean).
Proof.
  assert (filter (λ k, startsWith k "/box" = true)
            (keys (nodeFromName demo_clean)) = []) as Hscan
    by (vm_compute; reflexivity).
  split; [exact Hscan |].
  apply (addSceneNode_then_removeSceneNode demo_clean "/box" 2
           {| name := ""; children := ["/WorldAxes"]; make_object := 0 |}).
  - exact Hscan.
  - vm_compute. reflexivity.
  - cbn. intros Hin. apply elem_of_cons in Hin as [Heq | Hin];
      [discriminate | by apply elem_of_nil in Hin].
  - vm_compute. reflexivity.
  - vm_compute. reflexivity.
Defined.

(** Adding [/box] to the default store: the root lists it last. *)
Lemma addSceneNode_fresh_appends_witness :
  nodeFromName demo_clean !! "/box" = None
  ∧ nodeFromName (addSceneNode (new_SceneNode "/box" 2) demo_clean).2
      !! parent_name "/box"
    = Some {| name := ""; children := ["/WorldAxes"] ++ ["/box"];
              make_object := 0 |}.
Proof.
  assert (nodeFromName demo_clean !! "/box" = None) as Hfresh
    by (vm_compute; reflexivity).
  assert (nodeFromName demo_clean !! parent_name "/box"
          = Some {| name := ""; children := ["/WorldAxes"]; make_object := 0 |})
    as Hparent by (vm_compute; reflexivity).
  split; [exact Hfresh |].
  destruct (addSceneNode_fresh_appends demo_clean (new_SceneNode "/box" 2)
              "/box" _ eq_refl Hfresh Hparent) as (_ & _ & Hnew & _).
  exact Hnew.
Defined.

(** After [/a] is removed, [/a/b/c] cannot be added. *)
Lemma addSceneNode_under_removed_throws_witness :
  startsWith (parent_name "/a/b/c") "/a" = true
  ∧ addSceneNode (new_SceneNode "/a/b/c" 5) (removeSceneNode "/a" demo_siblings).2
    = (Thrown, (removeSceneNode "/a" demo_siblings).2).
Proof.
  split; [reflexivity |].
  apply (addSceneNode_under_removed_throws demo_siblings "/a"
           (new_SceneNode "/a/b/c" 5)).
  - vm_compute. eauto.
  - vm_compute. eauto.
  - discriminate.
  - reflexivity.
Defined.

Lemma overlay_writes_commute_witness :
  "/a" ≠ "/b"
  ∧ setVisibility "/a" false (setVisibility "/b" true demo_clean).2
    = setVisibility "/b" true (setVisibility "/a" false demo_clean).2.
Proof.
  assert ("/a" ≠ "/b") as Hne by discriminate.
  split; [exact Hne |].
  exact (proj1 (overlay_writes_commute demo_clean "/a" "/b" false true () ()
                  Hne)).
Defined.

(** After adding [/a] and [/a/b] and removing [/WorldAxes], the key
    [/a/b] has its parent as a key and a visibility entry. *)
Lemma reachable_store_inv_witness :
  is_Some
    (nodeFromName
       (demo_calls [AddNode "/a" 2; AddNode "/a/b" 3; RemoveNode "/WorldAxes"]
          demo_clean) !! "/a/b")
  ∧ is_Some
      (visibilityFromName
         (demo_calls [AddNode "/a" 2; AddNode "/a/b" 3; RemoveNode "/WorldAxes"]
            demo_clean) !! "/a/b").
Proof.
  assert (is_Some
            (nodeFromName
               (demo_calls
                  [AddNode "/a" 2; AddNode "/a/b" 3; RemoveNode "/WorldAxes"]
                  demo_clean) !! "/a/b")) as Hkey by (vm_compute; eauto).
  split; [exact Hkey |].
  destruct (reachable_store_inv (Matrix4 := unit) (Object3D := unit) 0 1
              [AddNode "/a" 2; AddNode "/a/b" 3; RemoveNode "/WorldAxes"]
              "/a/b" Hkey) as (_ & _ & Hvis).
  exact Hvis.
Defined.

(** Additions and overlay writes only: the child lists are sound. *)
Lemma no_removal_children_sound_witness :
  no_removal (Matrix4 := unit)
    [AddNode "/a" 2; SetVisibility "/a" false; AddNode "/a/b" 3;
     AddNode "/a" 4; SetObj "/a" (); Reset] = true
  ∧ children_sound
      (nodeFromName
         (demo_calls
            [AddNode "/a" 2; SetVisibility "/a" false; AddNode "/a/b" 3;
             AddNode "/a" 4; SetObj "/a" (); Reset]
            demo_clean)).
Proof.
  split; [reflexivity |].
  apply (no_removal_children_sound (Matrix4 := unit) (Object3D := unit) 0 1).
  reflexivity.
Defined.

(** ** The projector on stores reached without a removal *)

Section Projection.

Context {Matrix4 Object3D MakeObject : Type}.
Variables rootFrameTemplate rootAxesTemplate : MakeObject.

(** X19.  On a store that a sequence of calls without a removal reaches
    from the default store, [SceneNodeThreeChildren] of a key of the
    registry does not throw; when the key has a handle, it returns a
    portal into that handle whose group has one element per name of the
    child list, in order, with distinct keys, and [SceneNodeThreeObject]
    of each element's name finds its node and does not throw. *)
Theorem projector_renders_children
    (ms : list (@mutation Matrix4 Object3D MakeObject)) (p : string) node :
  let s :=
    calls rootFrameTemplate rootAxesTemplate ms
      (cleanSceneTreeState rootFrameTemplate rootAxesTemplate) in
  no_removal ms = true →
  nodeFromName s !! p = Some node →
  is_Some (SceneNodeThreeChildren p s)
  ∧ (objFromName s !! p = None → SceneNodeThreeChildren p s = Some NoParentObj)
  ∧ (∀ obj, objFromName s !! p = Some obj →
       ∃ group,
         SceneNodeThreeChildren p s = Some (Portal group obj)
         ∧ element_name <$> group = children node
         ∧ NoDup (element_key <$> group)
         ∧ ∀ e, e ∈ group → is_Some (SceneNodeThreeObject (element_name e) s)).
Proof.
  intros s Hms Hp.
  assert (children_sound (nodeFromName s)) as Hsound.
  { apply well_placed_children_sound, well_placed_calls; [done |].
    apply well_placed_clean. }
  destruct (Hsound p node Hp) as [Hnodup Hkeys]. unfold SceneNodeThreeChildren. rewrite Hp. cbn.
  split; [by eauto |]. split; [by intros -> |].
  intros obj ->. eexists. split; [reflexivity |].
  rewrite <- !list_fmap_compose.
  assert (∀ l : list string,
            (element_name ∘ (λ child_id,
               {| element_key := child_id; element_name := child_id |})) <$> l
            = l) as Hid.
  { intros l. induction l as [| x l IH]; [done |]. cbn. by rewrite IH. }
  split; [apply Hid |]. split.
  - assert (∀ l : list string,
              (element_key ∘ (λ child_id,
                 {| element_key := child_id; element_name := child_id |})) <$> l
              = l) as Hid'.
    { intros l. induction l as [| x l IH]; [done |]. cbn. by rewrite IH. }
    by rewrite Hid'.
  - intros e [child [-> Hin]]%list_elem_of_fmap. cbn.
    destruct (Hkeys child Hin) as ([child_node Hchild] & _).
    unfold SceneNodeThreeObject. rewrite Hchild. cbn. eauto.
Qed.

End Projection.

(** The root of a scene with a handle for the root and two additions. *)
Lemma projector_renders_children_witness :
  no_removal (Matrix4 := unit) [AddNode "/a" 2; SetObj "" (); AddNode "/b" 3]
  = true
  ∧ ∃ group,
      SceneNodeThreeChildren ""
        (demo_calls [AddNode "/a" 2; SetObj "" (); AddNode "/b" 3] demo_clean)
      = Some (Portal group ())
      ∧ element_name <$> group = ["/WorldAxes"; "/a"; "/b"]
      ∧ NoDup (element_key <$> group).
Proof.
  assert (no_removal (Matrix4 := unit)
            [AddNode "/a" 2; SetObj "" (); AddNode "/b" 3] = true) as Hms
    by reflexivity.
  split; [exact Hms |].
  destruct (projector_renders_children (Matrix4 := unit) 0 1
              [AddNode "/a" 2; SetObj "" (); AddNode "/b" 3] ""
              {| name := ""; children := ["/WorldAxes"; "/a"; "/b"];
                 make_object := 0 |} Hms)
    as (_ & _ & Hportal); [vm_compute; reflexivity |].
  destruct (Hportal ()) as (group & Hrender & Hnames & Hnodup & _);
    [vm_compute; reflexivity |].
  exists group. split; [exact Hrender |]. by split.
Defined.
